(** * Agent Planning Engine: a shallow embedding and its properties

    The development follows [AgentPlanningEngine] (the planning /
    scheduling / adaptation / reflection class of the agentflow
    services).  Every definition below embeds the method of the same
    name; comments give the correspondence where the TypeScript and the
    Rocq text differ in shape.

    Conventions of the embedding
    - a JS [Map<string, string[]>] is an association list kept in
      insertion order ([Map.set] on an existing key replaces the value
      and keeps the key's position);
    - a JS [Set<string>] is a [gset string];
    - a JS [number] is an extended rational ([JsNum.t]): exact rational
      arithmetic with the IEEE special values +Infinity, -Infinity and
      NaN; rounding and the sign of zero are not modelled;
    - [throw] is the [Throw] outcome of a small error monad; the fuel of
      the depth-first search is an artefact of the embedding, and
      [OutOfFuel] is proved unreachable for [calculateExecutionOrder];
      the JS call stack is taken to be deep enough for the recursion;
    - [uuidv4()] and [new Date()] read an explicit environment [Env];
    - calls of [logger] have no effect on any result and are left out,
      and with them [storePerformanceInsights], which only logs. *)

From Stdlib Require Import QArith.
From stdpp Require Import base tactics option list sets gmap strings relations pretty.
From Stdlib Require Import Lia.

Set Warnings "-register-all".

Local Open Scope string_scope.
Local Open Scope list_scope.

(* ===================================================================== *)
(** ** JavaScript numbers *)
(* ===================================================================== *)

Module JsNum.

Inductive t : Type :=
| Num (q : Q)
| PosInf
| NegInf
| NaN.

Definition of_Z (z : Z) : t := Num (inject_Z z).
Definition of_nat (n : nat) : t := of_Z (Z.of_nat n).

Definition is_zero (q : Q) : bool := Qeq_bool q 0.
Definition is_pos (q : Q) : bool := Z.ltb 0 (Qnum q).
Definition is_neg (q : Q) : bool := Z.ltb (Qnum q) 0.

Definition neg (a : t) : t :=
  match a with
  | Num q => Num (Qred (- q))
  | PosInf => NegInf
  | NegInf => PosInf
  | NaN => NaN
  end.

Definition add (a b : t) : t :=
  match a, b with
  | NaN, _ | _, NaN => NaN
  | Num p, Num q => Num (Qred (p + q))
  | PosInf, NegInf | NegInf, PosInf => NaN
  | PosInf, _ | _, PosInf => PosInf
  | NegInf, _ | _, NegInf => NegInf
  end.

Definition sub (a b : t) : t := add a (neg b).

(** The infinity with the sign of [q], NaN when [q] is zero. *)
Definition signed_inf (positive : bool) (q : Q) : t :=
  if is_zero q then NaN
  else if Bool.eqb positive (is_pos q) then PosInf else NegInf.

Definition mul (a b : t) : t :=
  match a, b with
  | NaN, _ | _, NaN => NaN
  | Num p, Num q => Num (Qred (p * q))
  | PosInf, Num q | Num q, PosInf => signed_inf true q
  | NegInf, Num q | Num q, NegInf => signed_inf false q
  | PosInf, PosInf | NegInf, NegInf => PosInf
  | PosInf, NegInf | NegInf, PosInf => NegInf
  end.

Definition div (a b : t) : t :=
  match a, b with
  | NaN, _ | _, NaN => NaN
  | Num p, Num q =>
      if is_zero q
      then (if is_zero p then NaN else if is_pos p then PosInf else NegInf)
      else Num (Qred (p / q))
  | Num _, (PosInf | NegInf) => Num 0
  | PosInf, Num q => if is_neg q then NegInf else PosInf
  | NegInf, Num q => if is_neg q then PosInf else NegInf
  | (PosInf | NegInf), (PosInf | NegInf) => NaN
  end.

(** [a < b]; every comparison with NaN is false. *)
Definition lt (a b : t) : bool :=
  match a, b with
  | NaN, _ | _, NaN => false
  | Num p, Num q => negb (Qle_bool q p)
  | NegInf, (Num _ | PosInf) => true
  | Num _, PosInf => true
  | _, _ => false
  end.

Definition gt (a b : t) : bool := lt b a.

(** [Math.max(a, b)] and [Math.min(a, b)]: NaN is contagious. *)
Definition max (a b : t) : t :=
  match a, b with
  | NaN, _ | _, NaN => NaN
  | _, _ => if lt a b then b else a
  end.

Definition min (a b : t) : t :=
  match a, b with
  | NaN, _ | _, NaN => NaN
  | _, _ => if lt b a then b else a
  end.

(** [Math.max(...xs)]: -Infinity on the empty argument list. *)
Definition max_list (xs : list t) : t := fold_left max xs NegInf.

(** ToBoolean on a number: 0 and NaN are falsy. *)
Definition truthy (a : t) : bool :=
  match a with
  | Num q => negb (is_zero q)
  | PosInf | NegInf => true
  | NaN => false
  end.

(** The number is a finite one. *)
Definition is_finite (a : t) : bool :=
  match a with Num _ => true | _ => false end.

(** Semantic equality of numbers ([===]): rationals are compared by
    value, NaN differs from everything, itself included. *)
Definition eqb (a b : t) : bool :=
  match a, b with
  | Num p, Num q => Qeq_bool p q
  | PosInf, PosInf | NegInf, NegInf => true
  | _, _ => false
  end.

End JsNum.

Abbreviation jsnum := JsNum.t.

(* ===================================================================== *)
(** ** Outcomes: return, throw, and the embedding's fuel *)
(* ===================================================================== *)

(** An untyped JSON value: the parsed reply of the reasoning service and
    the free-form [Record<string, any>] of a fallback strategy. *)
Inductive json : Type :=
| JNull
| JBool (b : bool)
| JNum (n : jsnum)
| JStr (s : string)
| JArr (items : list json)
| JObj (fields : list (string * json)).

(** The errors the engine raises.  The TypeScript throws [Error] objects
    that differ in their message only; each message shape is one
    constructor here. *)
Inductive error : Type :=
| CircularDependency (taskId : string)
    (* "Circular dependency detected involving task: <taskId>" *)
| PlanCreationFailed (cause : error)
    (* "Failed to create execution plan: <cause>" *)
| InvalidSubGoals
    (* "Invalid decomposition: missing or invalid subGoals" *)
| InvalidEstimatedDuration
    (* "Invalid decomposition: missing or invalid estimatedDuration" *)
| InvalidSubGoal (subGoal : json)
    (* "Invalid sub-goal: <JSON.stringify(subGoal)>" *)
| InvalidTask (task : json)
    (* "Invalid task: <JSON.stringify(task)>" *)
| SyntaxError
    (* raised by JSON.parse *)
| TypeError (value : json)
    (* a property read on null, or a for-of over a value that is not
       iterable *)
| InvalidPlanFormat (reason : error)
    (* "Invalid decomposition format: <reason>" *).

Inductive outcome (A : Type) : Type :=
| Ok (a : A)
| Throw (e : error)
| OutOfFuel.

Arguments Ok {A} a.
Arguments Throw {A} e.
Arguments OutOfFuel {A}.

Definition bind {A B : Type} (m : outcome A) (k : A -> outcome B) : outcome B :=
  match m with
  | Ok a => k a
  | Throw e => Throw e
  | OutOfFuel => OutOfFuel
  end.

Notation "'let*' x := m 'in' k" := (bind m (fun x => k))
  (at level 10, x name, m at level 100, k at level 200).

(** [try { m } catch (error) { throw new Error(wrap error) }] *)
Definition rethrow {A : Type} (wrap : error -> error) (m : outcome A) : outcome A :=
  match m with
  | Throw e => Throw (wrap e)
  | other => other
  end.

(* ===================================================================== *)
(** ** Data model *)
(* ===================================================================== *)

Inductive TaskType := atomic | composite.
Inductive Priority := low | medium | high | critical.

#[global] Instance TaskType_eq_dec : EqDecision TaskType.
Proof. solve_decision. Defined.
#[global] Instance Priority_eq_dec : EqDecision Priority.
Proof. solve_decision. Defined.

Module Task.
Record t : Type := mk {
  id : string;
  name : string;
  description : string;
  type : TaskType;
  estimatedDuration : jsnum;
  requiredCapabilities : list string;
  dependencies : list string;
  priority : Priority;
  successCriteria : list string
}.
End Task.

Module SubGoal.
Record t : Type := mk {
  id : string;
  description : string;
  tasks : list Task.t;
  dependencies : list string;
  estimatedDuration : jsnum;
  successCriteria : list string
}.
End SubGoal.

Inductive DependencyType := sequential | parallel | conditional.

Module TaskDependency.
Record t : Type := mk {
  taskId : string;
  dependsOn : list string;
  dependencyType : DependencyType
}.
End TaskDependency.

Module TaskPlan.
Record t : Type := mk {
  goalId : string;
  mainGoal : string;
  subGoals : list SubGoal.t;
  dependencies : list TaskDependency.t;
  estimatedDuration : jsnum;
  requiredCapabilities : list string;
  successCriteria : list string;
  createdAt : Z;
  version : nat
}.
End TaskPlan.

Module PlanningConstraints.
Record t : Type := mk {
  maxDuration : option jsnum;
  maxCost : option jsnum;
  requiredCapabilities : option (list string);
  excludedCapabilities : option (list string);
  parallelismLevel : option jsnum;
  priorityThreshold : option Priority
}.

(** The default argument [constraints = {}]. *)
Definition empty : t := mk None None None None None None.
End PlanningConstraints.

Inductive CheckpointAction := cp_continue | cp_pause | cp_replan | cp_escalate.

Module ExecutionCheckpoint.
Record t : Type := mk {
  id : string;
  taskId : string;
  condition : string;
  action : CheckpointAction
}.
End ExecutionCheckpoint.

Inductive FallbackAction :=
  retry | alternative_approach | human_intervention | abort.

Module FallbackStrategy.
Record t : Type := mk {
  triggerId : string;
  condition : string;
  action : FallbackAction;
  parameters : list (string * json)
}.
End FallbackStrategy.

Inductive ResourceType := single_agent | multi_agent.

(** One entry of [resourceAllocation]. *)
Module Allocation.
Record t : Type := mk {
  requiredCapabilities : list string;
  estimatedDuration : jsnum;
  priority : Priority;
  resourceType : ResourceType
}.
End Allocation.

Module ExecutionPlan.
Record t : Type := mk {
  id : string;
  taskPlan : TaskPlan.t;
  executionOrder : list string;
  parallelGroups : list (list string);
  resourceAllocation : gmap string Allocation.t;
  checkpoints : list ExecutionCheckpoint.t;
  fallbackStrategies : list FallbackStrategy.t;
  estimatedCost : jsnum;
  estimatedDuration : jsnum
}.
End ExecutionPlan.

Inductive FeedbackStatus := completed | failed | blocked | in_progress.

#[global] Instance FeedbackStatus_eq_dec : EqDecision FeedbackStatus.
Proof. solve_decision. Defined.

Module ExecutionFeedback.
Record t : Type := mk {
  taskId : string;
  status : FeedbackStatus;
  actualDuration : jsnum;
  actualCost : jsnum;
  quality : jsnum;
  issues : list string;
  suggestions : list string
}.
End ExecutionFeedback.

Inductive OverallStatus := run_completed | run_failed | run_partial.

Module ExecutionResults.
Record t : Type := mk {
  planId : string;
  overallStatus : OverallStatus;
  completedTasks : list string;
  failedTasks : list string;
  totalDuration : jsnum;
  totalCost : jsnum;
  qualityScore : jsnum;
  lessons : list string
}.
End ExecutionResults.

Module PerformanceInsights.
Record t : Type := mk {
  planId : string;
  strengths : list string;
  weaknesses : list string;
  recommendations : list string;
  optimizationOpportunities : list string;
  confidenceScore : jsnum
}.
End PerformanceInsights.

(** ** The environment: [uuidv4()] and [new Date()] *)

Record Env : Type := mkEnv {
  uuid_source : nat -> string;   (* the ids [uuidv4] will return, in order *)
  uuid_next : nat;               (* how many have been drawn *)
  now : Z                        (* what [new Date()] reads *)
}.

Definition uuidv4 (env : Env) : string * Env :=
  (uuid_source env (uuid_next env),
   mkEnv (uuid_source env) (S (uuid_next env)) (now env)).

(* ===================================================================== *)
(** ** The dependency graph: an insertion-ordered [Map<string, string[]>] *)
(* ===================================================================== *)

Definition DepGraph : Type := list (string * list string).

(** [Map.prototype.get] *)
Fixpoint graph_get (g : DepGraph) (k : string) : option (list string) :=
  match g with
  | [] => None
  | (k', v) :: g' => if String.eqb k k' then Some v else graph_get g' k
  end.

(** [Map.prototype.set]: an existing key keeps its position. *)
Fixpoint graph_set (g : DepGraph) (k : string) (v : list string) : DepGraph :=
  match g with
  | [] => [(k, v)]
  | (k', v') :: g' =>
      if String.eqb k k' then (k', v) :: g' else (k', v') :: graph_set g' k v
  end.

(** [Map.prototype.keys], in insertion order. *)
Definition graph_keys (g : DepGraph) : list string := fst <$> g.

(** [dependencyGraph.get(taskId) || []] *)
Definition deps_of (g : DepGraph) (taskId : string) : list string :=
  default [] (graph_get g taskId).

(** [buildDependencyGraph]: one [graph.set(task.id, task.dependencies)]
    per task, in plan order. *)
Definition buildDependencyGraph (tasks : list Task.t) : DepGraph :=
  fold_left (fun graph task =>
               graph_set graph (Task.id task) (Task.dependencies task))
            tasks [].

(* ===================================================================== *)
(** ** Topological scheduler *)
(* ===================================================================== *)

(** The three mutable locals of [calculateExecutionOrder]. *)
Record DfsState : Type := mkDfs {
  order : list string;
  visited : gset string;
  visiting : gset string
}.

Definition dfs_init : DfsState := mkDfs [] ∅ ∅.

(** The body [for (const dep of dependencies) visit(dep)], over any
    visiting function. *)
Fixpoint visit_each (visit : DfsState -> string -> outcome DfsState)
    (st : DfsState) (deps : list string) : outcome DfsState :=
  match deps with
  | [] => Ok st
  | dep :: rest => let* st' := visit st dep in visit_each visit st' rest
  end.

(** The closure [visit].  [fuel] bounds the depth of the recursion. *)
Fixpoint visit (g : DepGraph) (fuel : nat) (st : DfsState) (taskId : string)
    : outcome DfsState :=
  match fuel with
  | O => OutOfFuel
  | S fuel' =>
      if bool_decide (taskId ∈ visiting st) then Throw (CircularDependency taskId)
      else if bool_decide (taskId ∈ visited st) then Ok st
      else
        let st1 := mkDfs (order st) (visited st) ({[taskId]} ∪ visiting st) in
        let* st2 := visit_each (visit g fuel') st1 (deps_of g taskId) in
        Ok (mkDfs (order st2 ++ [taskId])
                  ({[taskId]} ∪ visited st2)
                  (visiting st2 ∖ {[taskId]}))
  end.

(** Every task id the graph mentions, as key or as dependency. *)
Definition graph_nodes (g : DepGraph) : list string :=
  graph_keys g ++ mjoin (snd <$> g).

(** Depth that the recursion cannot exceed: one frame per distinct id. *)
Definition dfs_fuel (g : DepGraph) : nat := S (length (graph_nodes g)).

(** The loop [for (const taskId of dependencyGraph.keys())]. *)
Fixpoint visit_keys (g : DepGraph) (fuel : nat) (st : DfsState)
    (keys : list string) : outcome DfsState :=
  match keys with
  | [] => Ok st
  | taskId :: rest =>
      if bool_decide (taskId ∈ visited st) then visit_keys g fuel st rest
      else let* st' := visit g fuel st taskId in visit_keys g fuel st' rest
  end.

Definition calculateExecutionOrder (dependencyGraph : DepGraph)
    (constraints : PlanningConstraints.t) : outcome (list string) :=
  let* st := visit_keys dependencyGraph (dfs_fuel dependencyGraph) dfs_init
                (graph_keys dependencyGraph) in
  Ok (order st).


(* ===================================================================== *)
(** ** Parallel group identifier *)
(* ===================================================================== *)

(** [Array.prototype.includes] on an array of strings. *)
Definition includes (l : list string) (x : string) : bool :=
  bool_decide (x ∈ l).

Definition canRunInParallel (taskId1 taskId2 : string)
    (dependencyGraph : DepGraph) : bool :=
  let deps1 := deps_of dependencyGraph taskId1 in
  let deps2 := deps_of dependencyGraph taskId2 in
  negb (includes deps1 taskId2) && negb (includes deps2 taskId1).

(** The inner loop [for (const otherTask of tasks)]: it extends [group]
    and [processed], comparing each candidate with the task that opened
    the group. *)
Fixpoint collect_group (g : DepGraph) (taskId : string)
    (others : list Task.t) (group : list string) (processed : gset string)
    : list string * gset string :=
  match others with
  | [] => (group, processed)
  | otherTask :: rest =>
      if bool_decide (Task.id otherTask ∈ processed)
      then collect_group g taskId rest group processed
      else if canRunInParallel taskId (Task.id otherTask) g
      then collect_group g taskId rest (group ++ [Task.id otherTask])
                         ({[Task.id otherTask]} ∪ processed)
      else collect_group g taskId rest group processed
  end.

(** The outer loop [for (const task of tasks)]; [all] is the whole task
    list, which the inner loop scans from its start. *)
Fixpoint group_tasks (g : DepGraph) (all : list Task.t) (todo : list Task.t)
    (groups : list (list string)) (processed : gset string)
    : list (list string) :=
  match todo with
  | [] => groups
  | task :: rest =>
      if bool_decide (Task.id task ∈ processed)
      then group_tasks g all rest groups processed
      else
        let '(group, processed') :=
          collect_group g (Task.id task) all [Task.id task]
                        ({[Task.id task]} ∪ processed) in
        if bool_decide (1 < length group)
        then group_tasks g all rest (groups ++ [group]) processed'
        else group_tasks g all rest groups processed'
  end.

Definition identifyParallelGroups (tasks : list Task.t)
    (dependencyGraph : DepGraph) : list (list string) :=
  group_tasks dependencyGraph tasks tasks [] ∅.

(* ===================================================================== *)
(** ** Resources, checkpoints, fallbacks, estimates *)
(* ===================================================================== *)

Definition allocateResources (tasks : list Task.t)
    (constraints : PlanningConstraints.t) : gmap string Allocation.t :=
  fold_left
    (fun allocation task =>
       <[ Task.id task :=
            Allocation.mk (Task.requiredCapabilities task)
                          (Task.estimatedDuration task)
                          (Task.priority task)
                          (if decide (Task.type task = atomic)
                           then single_agent else multi_agent) ]> allocation)
    tasks ∅.

(** One [pause] checkpoint per critical task, each with a fresh id. *)
Fixpoint critical_checkpoints (env : Env) (criticalTasks : list Task.t)
    : list ExecutionCheckpoint.t * Env :=
  match criticalTasks with
  | [] => ([], env)
  | task :: rest =>
      let '(cid, env1) := uuidv4 env in
      let '(cps, env2) := critical_checkpoints env1 rest in
      (ExecutionCheckpoint.mk cid (Task.id task) "task_completion" cp_pause
         :: cps, env2)
  end.

Definition createCheckpoints (env : Env) (tasks : list Task.t)
    (executionOrder : list string) : list ExecutionCheckpoint.t * Env :=
  let criticalTasks :=
    filter (fun t => Task.priority t = critical) tasks in
  (* Math.floor(executionOrder.length / 2) *)
  let midpoint := length executionOrder / 2 in
  let '(checkpoints, env1) := critical_checkpoints env criticalTasks in
  if bool_decide (2 < length executionOrder)
  then
    match executionOrder !! midpoint with
    | Some taskId =>
        let '(cid, env2) := uuidv4 env1 in
        (checkpoints ++
           [ExecutionCheckpoint.mk cid taskId "progress_review" cp_continue],
         env2)
    | None => (checkpoints, env1) (* not reached: midpoint < length *)
    end
  else (checkpoints, env1).

Definition defineFallbackStrategies (tasks : list Task.t)
    : list FallbackStrategy.t :=
  fmap (fun task =>
         if decide (Task.priority task = critical)
         then FallbackStrategy.mk (Task.id task) "task_failure"
                human_intervention
                [("escalationLevel", JStr "immediate")]
         else FallbackStrategy.mk (Task.id task) "task_failure" retry
                [("maxRetries", JNum (JsNum.of_Z 3));
                 ("backoffMs", JNum (JsNum.of_Z 5000))])
      tasks.

(** [$0.05 per task] *)
Definition unit_cost : jsnum := JsNum.Num (5 # 100).

Definition calculateEstimates (tasks : list Task.t)
    (parallelGroups : list (list string)) : jsnum * jsnum :=
  let sequentialTasks :=
    filter (fun t =>
              ¬ Exists (fun group => Task.id t ∈ group) parallelGroups)
           tasks in
  let totalDuration :=
    fold_left (fun sum task => JsNum.add sum (Task.estimatedDuration task))
              sequentialTasks (JsNum.of_Z 0) in
  let totalDuration :=
    fold_left
      (fun total group =>
         let groupTasks := filter (fun t => Task.id t ∈ group) tasks in
         let maxDuration :=
           JsNum.max_list (Task.estimatedDuration <$> groupTasks) in
         JsNum.add total maxDuration)
      parallelGroups totalDuration in
  let totalCost := JsNum.mul (JsNum.of_nat (length tasks)) unit_cost in
  (totalDuration, totalCost).

(** [[...new Set(xs)]]: duplicates dropped, first occurrences kept in
    order. *)
Fixpoint uniq_from (seen : gset string) (xs : list string) : list string :=
  match xs with
  | [] => []
  | x :: rest =>
      if bool_decide (x ∈ seen) then uniq_from seen rest
      else x :: uniq_from ({[x]} ∪ seen) rest
  end.

Definition uniq (xs : list string) : list string := uniq_from ∅ xs.

(* ===================================================================== *)
(** ** createExecutionPlan *)
(* ===================================================================== *)

Definition createExecutionPlan (env : Env) (tasks : list Task.t)
    (constraints : PlanningConstraints.t) : outcome (ExecutionPlan.t * Env) :=
  rethrow PlanCreationFailed (
    let dependencyGraph := buildDependencyGraph tasks in
    let* executionOrder :=
      calculateExecutionOrder dependencyGraph constraints in
    let parallelGroups := identifyParallelGroups tasks dependencyGraph in
    let resourceAllocation := allocateResources tasks constraints in
    let '(checkpoints, env1) := createCheckpoints env tasks executionOrder in
    let fallbackStrategies := defineFallbackStrategies tasks in
    let '(duration, cost) := calculateEstimates tasks parallelGroups in
    let '(planId, env2) := uuidv4 env1 in
    let '(goalId, env3) := uuidv4 env2 in
    Ok (ExecutionPlan.mk planId
          (TaskPlan.mk goalId "Generated from tasks" [] [] duration
             (uniq (mjoin (Task.requiredCapabilities <$> tasks)))
             (uniq (mjoin (Task.successCriteria <$> tasks)))
             (now env3) 1)
          executionOrder parallelGroups resourceAllocation checkpoints
          fallbackStrategies cost duration,
        env3)).

(* ===================================================================== *)
(** ** Plan adapter *)
(* ===================================================================== *)

Inductive Severity := sev_high | sev_medium.

Record Impact : Type := mkImpact {
  severity : Severity;
  affectedTasks : list string;
  timelineImpact : jsnum;
  costImpact : jsnum
}.

Inductive StrategyType := replan | reorder | adjust_estimates.

Record Strategy : Type := mkStrategy {
  strategy_type : StrategyType;
  scope : string
}.

(** [Array.prototype.indexOf]: the first index, [-1] when absent. *)
Fixpoint indexOf (l : list string) (x : string) : Z :=
  match l with
  | [] => (-1)%Z
  | y :: rest =>
      if String.eqb y x then 0%Z
      else let i := indexOf rest x in
           if (i <? 0)%Z then (-1)%Z else (i + 1)%Z
  end.

Definition findAffectedTasks (plan : ExecutionPlan.t) (failedTaskId : string)
    : list string :=
  let executionOrder := ExecutionPlan.executionOrder plan in
  List.filter
    (fun taskId =>
       (indexOf executionOrder failedTaskId <? indexOf executionOrder taskId)%Z)
    executionOrder.

(** [plan.estimatedDuration / plan.executionOrder.length] and the like. *)
Definition per_task (total : jsnum) (plan : ExecutionPlan.t) : jsnum :=
  JsNum.div total (JsNum.of_nat (length (ExecutionPlan.executionOrder plan))).

Definition analyzeFeedbackImpact (plan : ExecutionPlan.t)
    (feedback : ExecutionFeedback.t) : Impact :=
  mkImpact
    (if decide (ExecutionFeedback.status feedback = failed)
     then sev_high else sev_medium)
    (findAffectedTasks plan (ExecutionFeedback.taskId feedback))
    (JsNum.sub (ExecutionFeedback.actualDuration feedback)
               (per_task (ExecutionPlan.estimatedDuration plan) plan))
    (JsNum.sub (ExecutionFeedback.actualCost feedback)
               (per_task (ExecutionPlan.estimatedCost plan) plan)).

Definition determineAdaptationStrategy (impact : Impact)
    (feedback : ExecutionFeedback.t) : Strategy :=
  match ExecutionFeedback.status feedback, severity impact with
  | failed, sev_high => mkStrategy replan "full"
  | blocked, _ => mkStrategy reorder "partial"
  | _, _ => mkStrategy adjust_estimates "minimal"
  end.

Definition with_executionOrder (plan : ExecutionPlan.t)
    (executionOrder : list string) : ExecutionPlan.t :=
  ExecutionPlan.mk
    (ExecutionPlan.id plan) (ExecutionPlan.taskPlan plan) executionOrder
    (ExecutionPlan.parallelGroups plan) (ExecutionPlan.resourceAllocation plan)
    (ExecutionPlan.checkpoints plan) (ExecutionPlan.fallbackStrategies plan)
    (ExecutionPlan.estimatedCost plan) (ExecutionPlan.estimatedDuration plan).

Definition with_estimates (plan : ExecutionPlan.t) (cost duration : jsnum)
    : ExecutionPlan.t :=
  ExecutionPlan.mk
    (ExecutionPlan.id plan) (ExecutionPlan.taskPlan plan)
    (ExecutionPlan.executionOrder plan)
    (ExecutionPlan.parallelGroups plan) (ExecutionPlan.resourceAllocation plan)
    (ExecutionPlan.checkpoints plan) (ExecutionPlan.fallbackStrategies plan)
    cost duration.

Definition with_id (plan : ExecutionPlan.t) (new_id : string)
    : ExecutionPlan.t :=
  ExecutionPlan.mk
    new_id (ExecutionPlan.taskPlan plan)
    (ExecutionPlan.executionOrder plan)
    (ExecutionPlan.parallelGroups plan) (ExecutionPlan.resourceAllocation plan)
    (ExecutionPlan.checkpoints plan) (ExecutionPlan.fallbackStrategies plan)
    (ExecutionPlan.estimatedCost plan) (ExecutionPlan.estimatedDuration plan).

(** [splice(taskIndex, 1)] followed by [push(taskId)], when the task is
    found. *)
Definition move_to_end (executionOrder : list string) (taskId : string)
    : list string :=
  let taskIndex := indexOf executionOrder taskId in
  if (-1 <? taskIndex)%Z
  then delete (Z.to_nat taskIndex) executionOrder ++ [taskId]
  else executionOrder.

(** [applyAdaptations].  [adaptedPlan = { ...plan }] is a shallow copy:
    the [reorder] case splices the array that [plan] still points to, so
    the function returns the adapted plan together with the input plan
    as its owner sees it afterwards. *)
Definition applyAdaptations (plan : ExecutionPlan.t) (strategy : Strategy)
    (feedback : ExecutionFeedback.t) : ExecutionPlan.t * ExecutionPlan.t :=
  match strategy_type strategy with
  | replan =>
      (with_executionOrder plan
         (List.filter
            (fun i => negb (String.eqb i (ExecutionFeedback.taskId feedback)))
            (ExecutionPlan.executionOrder plan)),
       plan)
  | reorder =>
      let moved :=
        move_to_end (ExecutionPlan.executionOrder plan)
                    (ExecutionFeedback.taskId feedback) in
      (with_executionOrder plan moved, with_executionOrder plan moved)
  | adjust_estimates =>
      (with_estimates plan (ExecutionPlan.estimatedCost plan)
         (JsNum.mul (ExecutionPlan.estimatedDuration plan)
            (JsNum.div (ExecutionFeedback.actualDuration feedback)
               (per_task (ExecutionPlan.estimatedDuration plan) plan))),
       plan)
  end.

Definition recalculateEstimates (plan : ExecutionPlan.t)
    (feedback : ExecutionFeedback.t) : jsnum * jsnum :=
  let adjustmentFactor :=
    JsNum.div (ExecutionFeedback.actualDuration feedback)
              (per_task (ExecutionPlan.estimatedDuration plan) plan) in
  (JsNum.mul (ExecutionPlan.estimatedDuration plan) adjustmentFactor,
   JsNum.mul (ExecutionPlan.estimatedCost plan) adjustmentFactor).

(** [adaptPlan].  None of the callees throws, so the [catch] branch is
    dead and the result is a plain value. *)
Definition adaptPlan (env : Env) (currentPlan : ExecutionPlan.t)
    (feedback : ExecutionFeedback.t) : ExecutionPlan.t * Env :=
  let impact := analyzeFeedbackImpact currentPlan feedback in
  let adaptationStrategy := determineAdaptationStrategy impact feedback in
  let adaptedPlan :=
    fst (applyAdaptations currentPlan adaptationStrategy feedback) in
  let '(duration, cost) := recalculateEstimates adaptedPlan feedback in
  let '(new_id, env') := uuidv4 env in
  (with_id (with_estimates adaptedPlan cost duration) new_id, env').

(** What the caller's [currentPlan] looks like after [adaptPlan]. *)
Definition currentPlan_after_adaptPlan (currentPlan : ExecutionPlan.t)
    (feedback : ExecutionFeedback.t) : ExecutionPlan.t :=
  let impact := analyzeFeedbackImpact currentPlan feedback in
  let adaptationStrategy := determineAdaptationStrategy impact feedback in
  snd (applyAdaptations currentPlan adaptationStrategy feedback).

(* ===================================================================== *)
(** ** Performance reflector *)
(* ===================================================================== *)

Record PerformanceAnalysis : Type := mkAnalysis {
  strengths : list string;
  weaknesses : list string;
  optimizations : list string
}.

(** A decimal literal such as [0.8], written [lit 8 10]. *)
Definition lit (n d : Z) : jsnum := JsNum.div (JsNum.of_Z n) (JsNum.of_Z d).

(** The local [successRate] of [analyzePerformance]. *)
Definition successRate (results : ExecutionResults.t) : jsnum :=
  JsNum.div
    (JsNum.of_nat (length (ExecutionResults.completedTasks results)))
    (JsNum.of_nat (length (ExecutionResults.completedTasks results)
                   + length (ExecutionResults.failedTasks results))).

Definition analyzePerformance (results : ExecutionResults.t)
    : PerformanceAnalysis :=
  mkAnalysis
    (if JsNum.gt (successRate results) (lit 8 10)
     then ["High success rate"; "Good task completion"] else [])
    (if JsNum.lt (successRate results) (lit 6 10)
     then ["Low success rate"; "Task execution issues"] else [])
    (if JsNum.lt (ExecutionResults.qualityScore results) (lit 7 10)
     then ["Improve task quality"; "Better resource allocation"] else []).

Definition identifyPerformancePatterns (results : ExecutionResults.t)
    : list string :=
  (if JsNum.gt (ExecutionResults.totalDuration results)
        (JsNum.mul
           (JsNum.of_nat (length (ExecutionResults.completedTasks results)))
           (JsNum.of_Z 60))
   then ["Tasks taking longer than expected"] else [])
  ++
  (if bool_decide (0 < length (ExecutionResults.failedTasks results))
   then ["Task failure pattern detected"] else []).

Definition generateRecommendations (analysis : PerformanceAnalysis)
    (patterns : list string) : list string :=
  (if includes (weaknesses analysis) "Low success rate"
   then ["Review task complexity and break down further"] else [])
  ++
  (if includes patterns "Tasks taking longer than expected"
   then ["Adjust duration estimates and add buffer time"] else []).

Definition calculateConfidenceScore (analysis : PerformanceAnalysis)
    (patterns : list string) : jsnum :=
  let score := lit 8 10 in
  let score :=
    if bool_decide (length (weaknesses analysis) < length (strengths analysis))
    then JsNum.add score (lit 1 10) else JsNum.sub score (lit 1 10) in
  let score :=
    if bool_decide (2 < length patterns)
    then JsNum.sub score (lit 2 10) else score in
  JsNum.max (lit 1 10) (JsNum.min (JsNum.of_Z 1) score).

Definition reflectOnPerformance (results : ExecutionResults.t)
    : PerformanceInsights.t :=
  let performanceAnalysis := analyzePerformance results in
  let patterns := identifyPerformancePatterns results in
  let recommendations :=
    generateRecommendations performanceAnalysis patterns in
  let confidenceScore :=
    calculateConfidenceScore performanceAnalysis patterns in
  PerformanceInsights.mk
    (ExecutionResults.planId results)
    (strengths performanceAnalysis)
    (weaknesses performanceAnalysis)
    recommendations
    (optimizations performanceAnalysis)
    confidenceScore.

(* ===================================================================== *)
(** ** Plan validator *)
(* ===================================================================== *)

(** ToBoolean; [None] is [undefined]. *)
Definition truthy (v : option json) : bool :=
  match v with
  | None | Some JNull => false
  | Some (JBool b) => b
  | Some (JNum n) => JsNum.truthy n
  | Some (JStr s) => negb (String.eqb s EmptyString)
  | Some (JArr _) | Some (JObj _) => true
  end.

(** The own property [key] of an object built by [JSON.parse]: of
    duplicated members the last one stays. *)
Fixpoint field (fields : list (string * json)) (key : string) : option json :=
  match fields with
  | [] => None
  | (k, v) :: rest =>
      match field rest key with
      | Some later => Some later
      | None => if String.eqb k key then Some v else None
      end
  end.

(** The property read [v.key], for the keys the validator uses
    ([subGoals], [estimatedDuration], [id], [description], [tasks],
    [name], [type]): none is a built-in property of a string, number,
    boolean or array, so those yield [undefined]; [null] throws. *)
Definition get (v : json) (key : string) : outcome (option json) :=
  match v with
  | JNull => Throw (TypeError JNull)
  | JObj fields => Ok (field fields key)
  | _ => Ok None
  end.

(** [Array.isArray] and [typeof v === 'number'] *)
Definition isArray (v : option json) : bool :=
  match v with Some (JArr _) => true | _ => false end.

Definition isNumber (v : option json) : bool :=
  match v with Some (JNum _) => true | _ => false end.

(** The characters a for-of loop over a string yields. *)
Fixpoint chars (s : string) : list json :=
  match s with
  | EmptyString => []
  | String c rest => JStr (String c EmptyString) :: chars rest
  end.

(** The values a for-of loop iterates over: arrays and strings are
    iterable, everything else raises a [TypeError]. *)
Definition iterate (v : option json) : outcome (list json) :=
  match v with
  | Some (JArr items) => Ok items
  | Some (JStr s) => Ok (chars s)
  | Some other => Throw (TypeError other)
  | None => Throw (TypeError JNull)
  end.

Definition validateTask (task : json) : outcome unit :=
  let* task_id := get task "id" in
  let* task_name := get task "name" in
  let* task_type := get task "type" in
  if negb (truthy task_id) || negb (truthy task_name) || negb (truthy task_type)
  then Throw (InvalidTask task)
  else Ok tt.

Fixpoint validateTasks (tasks : list json) : outcome unit :=
  match tasks with
  | [] => Ok tt
  | task :: rest => let* _ := validateTask task in validateTasks rest
  end.

Definition validateSubGoal (subGoal : json) : outcome unit :=
  let* sg_id := get subGoal "id" in
  let* sg_description := get subGoal "description" in
  let* sg_tasks := get subGoal "tasks" in
  if negb (truthy sg_id) || negb (truthy sg_description)
     || negb (truthy sg_tasks)
  then Throw (InvalidSubGoal subGoal)
  else let* tasks := iterate sg_tasks in validateTasks tasks.

Fixpoint validateSubGoals (subGoals : list json) : outcome unit :=
  match subGoals with
  | [] => Ok tt
  | subGoal :: rest =>
      let* _ := validateSubGoal subGoal in validateSubGoals rest
  end.

(** [validateDecomposition].  The argument is what [JSON.parse(content)]
    produced, [None] when it raised a [SyntaxError]. *)
Definition validateDecomposition (parse_result : option json) : outcome json :=
  rethrow InvalidPlanFormat (
    match parse_result with
    | None => Throw SyntaxError
    | Some parsed =>
        let* subGoals := get parsed "subGoals" in
        if negb (truthy subGoals) || negb (isArray subGoals)
        then Throw InvalidSubGoals
        else
          let* duration := get parsed "estimatedDuration" in
          if negb (truthy duration) || negb (isNumber duration)
          then Throw InvalidEstimatedDuration
          else
            let* items := iterate subGoals in
            let* _ := validateSubGoals items in
            Ok parsed
    end).

(* ===================================================================== *)
(** ** Notions used to state the properties *)
(* ===================================================================== *)

(** [a] occurs at an earlier index of [l] than [b]. *)
Definition precedes (a b : string) (l : list string) : Prop :=
  ∃ i j, l !! i = Some a ∧ l !! j = Some b ∧ i < j.

(** [edge g x d]: in the graph [g], task [x] depends directly on task
    [d]. *)
Definition edge (g : DepGraph) (x d : string) : Prop := d ∈ deps_of g x.

(** [x] lies on a cycle of the dependency graph. *)
Definition on_cycle (g : DepGraph) (x : string) : Prop := tc (edge g) x x.

Definition acyclic (g : DepGraph) : Prop := ∀ x, ¬ on_cycle g x.
Definition cyclic (g : DepGraph) : Prop := ∃ x, on_cycle g x.

(** Every dependency reference names a task of the list. *)
Definition references_closed (tasks : list Task.t) : Prop :=
  Forall (fun t => Forall (fun d => d ∈ Task.id <$> tasks)
                          (Task.dependencies t)) tasks.

(** The number of pairs (task in the order, dependency of that task)
    whose dependency has not been scheduled before the task: the
    re-validation of an [executionOrder] against the dependency graph. *)
Fixpoint violations_from (g : DepGraph) (scheduled rest : list string) : nat :=
  match rest with
  | [] => 0
  | taskId :: rest' =>
      length (filter (fun d => d ∉ scheduled) (deps_of g taskId))
      + violations_from g (scheduled ++ [taskId]) rest'
  end.

Definition dependency_violations (g : DepGraph) (executionOrder : list string)
    : nat :=
  violations_from g [] executionOrder.

(** What a returning call of [visit] leaves: the in-progress set as it
    found it, a larger done set, and new ids appended to the order. *)
Definition extends (st st' : DfsState) : Prop :=
  visiting st' = visiting st ∧
  visited st ⊆ visited st' ∧
  ∃ l, order st' = order st ++ l.

(** The invariant of the search between two calls of [visit]. *)
Record dfs_inv (g : DepGraph) (st : DfsState) : Prop := {
  inv_visited : ∀ y, y ∈ visited st ↔ y ∈ order st;
  inv_nodup : NoDup (order st);
  inv_disjoint : ∀ y, y ∈ visiting st → y ∉ visited st;
  inv_deps : ∀ y d, y ∈ order st → edge g y d → precedes d y (order st);
  inv_nodes : ∀ y, y ∈ order st → y ∈ graph_nodes g
}.

(** The task ids of the graph, as a set. *)
Definition node_set (g : DepGraph) : gset string :=
  list_to_set (graph_nodes g).

(* ===================================================================== *)
(** ** Sample inputs *)
(* ===================================================================== *)

(** An environment whose n-th uuid is ["uuid-n"]. *)
Definition sample_env : Env := mkEnv (fun n => "uuid-" +:+ pretty n) 0 0.

Definition sample_task (task_id : string) (duration : Z)
    (deps : list string) : Task.t :=
  Task.mk task_id task_id EmptyString atomic (JsNum.of_Z duration) [] deps medium [].

(** The three tasks of the worked example: A (10 minutes), B (20
    minutes, after A), C (5 minutes). *)
Definition tasks_ABC : list Task.t :=
  [sample_task "A" 10 []; sample_task "B" 20 ["A"]; sample_task "C" 5 []].

(** Two tasks that depend on each other. *)
Definition tasks_cycle : list Task.t :=
  [sample_task "A" 10 ["B"]; sample_task "B" 20 ["A"]].

(** A task that depends on an id no task carries. *)
Definition tasks_dangling : list Task.t :=
  [sample_task "B" 20 ["ghost"]].

(** Independent tasks A and B, and a task C that depends on B. *)
Definition tasks_chain_in_group : list Task.t :=
  [sample_task "A" 10 []; sample_task "B" 20 []; sample_task "C" 5 ["B"]].

(** ** Plans up to generated ids *)

(** An execution plan without what [uuidv4] and [new Date()] put into
    it: the plan id, the goal id, the creation time and the checkpoint
    ids. *)
Record PlanShape : Type := mkShape {
  shape_executionOrder : list string;
  shape_parallelGroups : list (list string);
  shape_resourceAllocation : gmap string Allocation.t;
  shape_checkpoints : list (string * string * CheckpointAction);
  shape_fallbackStrategies : list FallbackStrategy.t;
  shape_estimatedCost : jsnum;
  shape_estimatedDuration : jsnum;
  shape_requiredCapabilities : list string;
  shape_successCriteria : list string
}.

Definition checkpoint_shape (cp : ExecutionCheckpoint.t)
    : string * string * CheckpointAction :=
  (ExecutionCheckpoint.taskId cp, ExecutionCheckpoint.condition cp,
   ExecutionCheckpoint.action cp).

Definition plan_shape (plan : ExecutionPlan.t) : PlanShape :=
  mkShape
    (ExecutionPlan.executionOrder plan)
    (ExecutionPlan.parallelGroups plan)
    (ExecutionPlan.resourceAllocation plan)
    (checkpoint_shape <$> ExecutionPlan.checkpoints plan)
    (ExecutionPlan.fallbackStrategies plan)
    (ExecutionPlan.estimatedCost plan)
    (ExecutionPlan.estimatedDuration plan)
    (TaskPlan.requiredCapabilities (ExecutionPlan.taskPlan plan))
    (TaskPlan.successCriteria (ExecutionPlan.taskPlan plan)).

(** The observable result of [createExecutionPlan]: the shape of the
    plan, or the error. *)
Definition result_shape (r : outcome (ExecutionPlan.t * Env))
    : outcome PlanShape :=
  match r with
  | Ok (plan, _) => Ok (plan_shape plan)
  | Throw e => Throw e
  | OutOfFuel => OutOfFuel
  end.

(** ** Estimate correction, in the words of the design *)

(** [actualDuration / averagePerTaskEstimate], the average being
    [estimatedDuration / taskCount]. *)
Definition adjustment (estimated actualDuration : jsnum) (taskCount : nat)
    : jsnum :=
  JsNum.div actualDuration (JsNum.div estimated (JsNum.of_nat taskCount)).

(** A plan of two tasks X and Y, estimated at 20 minutes and 0.1. *)
Definition plan_XY : ExecutionPlan.t :=
  ExecutionPlan.mk "plan-0"
    (TaskPlan.mk "goal-0" "Generated from tasks" [] [] (JsNum.of_Z 20)
       [] [] 0 1)
    ["X"; "Y"] [] ∅ [] [] (lit 1 10) (JsNum.of_Z 20).

(** Feedback on task X, which took 10 minutes. *)
Definition feedback_X (status : FeedbackStatus) : ExecutionFeedback.t :=
  ExecutionFeedback.mk "X" status (JsNum.of_Z 10) (lit 5 100) (lit 1 2) [] [].

(** ** Payloads the validator accepts, stated declaratively *)

Definition accepted_task (task : json) : Prop :=
  ∃ fields,
    task = JObj fields ∧
    truthy (field fields "id") = true ∧
    truthy (field fields "name") = true ∧
    truthy (field fields "type") = true.

Definition accepted_subGoal (subGoal : json) : Prop :=
  ∃ fields tasks,
    subGoal = JObj fields ∧
    truthy (field fields "id") = true ∧
    truthy (field fields "description") = true ∧
    field fields "tasks" = Some (JArr tasks) ∧
    Forall accepted_task tasks.

Definition accepted_payload (parsed : json) : Prop :=
  ∃ fields subGoals duration,
    parsed = JObj fields ∧
    field fields "subGoals" = Some (JArr subGoals) ∧
    field fields "estimatedDuration" = Some (JNum duration) ∧
    JsNum.truthy duration = true ∧
    Forall accepted_subGoal subGoals.

(** [{"subGoals": [], "estimatedDuration": -5}] *)
Definition payload_empty_negative : json :=
  JObj [("subGoals", JArr []); ("estimatedDuration", JNum (JsNum.of_Z (-5)))].

(** [{"subGoals": [{"id": "g1", "description": "d", "tasks": []}],
      "estimatedDuration": 5}] *)
Definition payload_empty_tasks : json :=
  JObj [("subGoals",
         JArr [JObj [("id", JStr "g1"); ("description", JStr "d");
                     ("tasks", JArr [])]]);
        ("estimatedDuration", JNum (JsNum.of_Z 5))].

(** A payload with one subgoal of one task. *)
Definition payload_valid : json :=
  JObj [("subGoals",
         JArr [JObj [("id", JStr "g1"); ("description", JStr "d");
                     ("tasks",
                      JArr [JObj [("id", JStr "t1"); ("name", JStr "n");
                                  ("type", JStr "atomic")]])]]);
        ("estimatedDuration", JNum (JsNum.of_Z 5))].

(** ** What the grouping does guarantee *)

(** Every member of the group after the first can run in parallel with
    the first. *)
Definition starter_independent (g : DepGraph) (group : list string) : Prop :=
  match group with
  | [] => True
  | starter :: members =>
      Forall (fun y => canRunInParallel starter y g = true) members
  end.

(* ===================================================================== *)
(** ** The engine's histories: [decomposeGoal] and [getPlanningStats] *)
(* ===================================================================== *)

(** A [TaskPlan] as [decomposeGoal] builds it.  The fields copied from
    the reply of the reasoning service keep the JSON they arrived as:
    [subGoals] holds the elements of the validated array, the three
    unvalidated fields hold whatever the reply had ([None] for
    [undefined]). *)
Module StoredPlan.
Record t : Type := mk {
  goalId : string;
  mainGoal : string;
  subGoals : list json;
  dependencies : option json;
  estimatedDuration : jsnum;
  requiredCapabilities : option json;
  successCriteria : option json;
  createdAt : Z;
  version : nat
}.
End StoredPlan.

Module AgentContext.
Record t : Type := mk {
  agentId : option string;
  workflowId : option string;
  availableCapabilities : option (list string);
  organizationId : option jsnum
}.
End AgentContext.

(** The two private maps of the engine. *)
Record Engine : Type := mkEngine {
  planningHistory : gmap string (list StoredPlan.t);
  executionHistory : gmap string (list ExecutionResults.t)
}.

(** The engine [getInstance] creates. *)
Definition new_engine : Engine := mkEngine ∅ ∅.

(** [context.agentId || 'default']: an absent and an empty id both give
    ['default']. *)
Definition history_key (context : AgentContext.t) : string :=
  match AgentContext.agentId context with
  | Some agentId => if String.eqb agentId EmptyString then "default" else agentId
  | None => "default"
  end.

(** What the two awaited calls of the model router and the
    [JSON.parse] of [response.content] come to: a failure with its
    message, or the parse result ([None] for a syntax error). *)
Inductive RouterReply : Type :=
| RouterFailed (message : string)
| RouterContent (parse_result : option json).

(** The cause inside "Failed to decompose goal: <cause>". *)
Inductive DecomposeError : Type :=
| RouterError (message : string)
| ValidationError (e : error).

Inductive DecomposeResult : Type :=
| Decomposed (taskPlan : StoredPlan.t)
| DecomposeFailed (cause : DecomposeError)
| DecomposeOutOfFuel.

(** The property read [decomposition.key] on a validated payload. *)
Definition payload_field (decomposition : json) (key : string) : option json :=
  match decomposition with
  | JObj fields => field fields key
  | _ => None
  end.

(** The elements of an array value, the number of a number value; the
    validator has checked both before they are read. *)
Definition array_items (v : option json) : list json :=
  match v with Some (JArr items) => items | _ => [] end.

Definition number_value (v : option json) : jsnum :=
  match v with Some (JNum n) => n | _ => JsNum.NaN end.

(** [decomposeGoal], from the reply of the model router on.  It returns
    the plan or the failure, together with the engine and the
    environment afterwards. *)
Definition decomposeGoal (engine : Engine) (env : Env) (goal : string)
    (context : AgentContext.t) (reply : RouterReply)
    : DecomposeResult * Engine * Env :=
  match reply with
  | RouterFailed message => (DecomposeFailed (RouterError message), engine, env)
  | RouterContent parse_result =>
      match validateDecomposition parse_result with
      | Ok decomposition =>
          let '(goalId, env1) := uuidv4 env in
          let taskPlan :=
            StoredPlan.mk goalId goal
              (array_items (payload_field decomposition "subGoals"))
              (payload_field decomposition "dependencies")
              (number_value (payload_field decomposition "estimatedDuration"))
              (payload_field decomposition "requiredCapabilities")
              (payload_field decomposition "successCriteria")
              (now env1) 1 in
          let agentHistory :=
            default [] (planningHistory engine !! history_key context) in
          (Decomposed taskPlan,
           mkEngine
             (<[ history_key context := agentHistory ++ [taskPlan] ]>
                (planningHistory engine))
             (executionHistory engine),
           env1)
      | Throw e => (DecomposeFailed (ValidationError e), engine, env)
      | OutOfFuel => (DecomposeOutOfFuel, engine, env)
      end
  end.

#[global] Instance OverallStatus_eq_dec : EqDecision OverallStatus.
Proof. solve_decision. Defined.

Record PlanningStats : Type := mkStats {
  totalPlans : nat;
  totalExecutions : nat;
  averagePlanComplexity : jsnum;
  stats_successRate : jsnum;
  averageExecutionTime : jsnum;
  averageQualityScore : jsnum
}.

(** [xs.reduce((sum, x) => sum + f(x), 0)] *)
Definition sum_by {A : Type} (f : A → jsnum) (xs : list A) : jsnum :=
  fold_left (fun sum x => JsNum.add sum (f x)) xs (JsNum.of_Z 0).

Definition getPlanningStats (engine : Engine) (agentId : string)
    : PlanningStats :=
  let plans := default [] (planningHistory engine !! agentId) in
  let executions := default [] (executionHistory engine !! agentId) in
  mkStats
    (length plans)
    (length executions)
    (if bool_decide (0 < length plans)
     then JsNum.div
            (sum_by (fun plan => JsNum.of_nat (length (StoredPlan.subGoals plan)))
                    plans)
            (JsNum.of_nat (length plans))
     else JsNum.of_Z 0)
    (if bool_decide (0 < length executions)
     then JsNum.div
            (JsNum.of_nat
               (length (filter
                          (fun e => ExecutionResults.overallStatus e
                                    = run_completed)
                          executions)))
            (JsNum.of_nat (length executions))
     else JsNum.of_Z 0)
    (if bool_decide (0 < length executions)
     then JsNum.div (sum_by ExecutionResults.totalDuration executions)
                    (JsNum.of_nat (length executions))
     else JsNum.of_Z 0)
    (if bool_decide (0 < length executions)
     then JsNum.div (sum_by ExecutionResults.qualityScore executions)
                    (JsNum.of_nat (length executions))
     else JsNum.of_Z 0).

(** The engine states the public methods can produce: the fresh engine,
    and what a call of [decomposeGoal] makes of a reachable one.  No
    other method writes to either map. *)
Inductive reachable : Engine → Prop :=
| reachable_new : reachable new_engine
| reachable_decomposeGoal engine env goal context reply :
    reachable engine →
    reachable (snd (fst (decomposeGoal engine env goal context reply))).

(* ===================================================================== *)
(** ** Further notions for properties of the scheduler and the adapter *)
(* ===================================================================== *)

(** The plan lists every task after the tasks it depends on. *)
Definition presorted (tasks : list Task.t) : Prop :=
  ∀ front t back,
    tasks = front ++ t :: back →
    ∀ d, d ∈ Task.dependencies t → d ∈ Task.id <$> front.

(** [uuidv4] returns a different id at every draw. *)
Definition uuids_distinct (env : Env) : Prop :=
  ∀ i j, uuid_source env i = uuid_source env j → i = j.

(** A plan of independent tasks A and B. *)
Definition tasks_AB : list Task.t :=
  [sample_task "A" 10 []; sample_task "B" 20 []].

(* ===================================================================== *)
(** * Properties *)
(* ===================================================================== *)

(** ** Positions in an execution order *)


Lemma precedes_elem_l a b l : precedes a b l → a ∈ l.
Proof. intros (i & j & Ha & _ & _). by eapply list_elem_of_lookup_2. Qed.

Lemma precedes_app_l a b l k : precedes a b l → precedes a b (l ++ k).
Proof.
  intros (i & j & Ha & Hb & Hij). exists i, j.
  split_and!; [by apply lookup_app_l_Some | by apply lookup_app_l_Some | done].
Qed.

Lemma precedes_snoc a b l : a ∈ l → precedes a b (l ++ [b]).
Proof.
  intros (i & Hi)%list_elem_of_lookup_1. exists i, (length l).
  split_and!.
  - by apply lookup_app_l_Some.
  - by rewrite list_lookup_middle.
  - by eapply lookup_lt_Some.
Qed.

Lemma precedes_trans a b c l :
  NoDup l → precedes a b l → precedes b c l → precedes a c l.
Proof.
  intros Hnd (i & j & Ha & Hb & Hij) (j' & k & Hb' & Hc & Hjk).
  assert (j = j') as <- by eauto using NoDup_lookup.
  exists i, k. split_and!; [done | done | lia].
Qed.

Lemma precedes_irrefl a l : NoDup l → ¬ precedes a a l.
Proof.
  intros Hnd (i & j & Hi & Hj & Hij).
  assert (i = j) by eauto using NoDup_lookup. lia.
Qed.

(** ** The depth-first search *)


Lemma extends_refl st : extends st st.
Proof. split_and!; [done | done | exists []; by rewrite app_nil_r]. Qed.

Lemma extends_trans st1 st2 st3 :
  extends st1 st2 → extends st2 st3 → extends st1 st3.
Proof.
  intros (Hv1 & Hd1 & l1 & Ho1) (Hv2 & Hd2 & l2 & Ho2). split_and!.
  - congruence.
  - by transitivity (visited st2).
  - exists (l1 ++ l2). by rewrite Ho2, Ho1, <- app_assoc.
Qed.

Lemma bind_Ok {A B} (m : outcome A) (k : A → outcome B) b :
  bind m k = Ok b → ∃ a, m = Ok a ∧ k a = Ok b.
Proof. destruct m; simpl; intros; [eauto | done | done]. Qed.

Lemma bind_Throw {A B} (m : outcome A) (k : A → outcome B) e :
  bind m k = Throw e → m = Throw e ∨ ∃ a, m = Ok a ∧ k a = Throw e.
Proof. destruct m; simpl; intros; [eauto | left; congruence | done]. Qed.

Lemma bind_OutOfFuel {A B} (m : outcome A) (k : A → outcome B) :
  bind m k = OutOfFuel → m = OutOfFuel ∨ ∃ a, m = Ok a ∧ k a = OutOfFuel.
Proof. destruct m; simpl; intros; [eauto | done | by left]. Qed.

Section visit_each.
Variable v : DfsState → string → outcome DfsState.
Hypothesis v_extends : ∀ st x st', v st x = Ok st' → extends st st'.

Lemma visit_each_extends ds st st' :
  visit_each v st ds = Ok st' → extends st st'.
Proof.
  revert st. induction ds as [|d ds IH]; simpl; intros st H.
  - injection H as <-. apply extends_refl.
  - apply bind_Ok in H as (st1 & H1 & H2).
    eapply extends_trans; eauto.
Qed.

(** A property of states that each call keeps, and a property of the
    visited id that it establishes and later calls keep. *)
Lemma visit_each_inv (I : DfsState → Prop) (ok : string → Prop) ds st st' :
  (∀ st x st', I st → ok x → v st x = Ok st' → I st' ∧ x ∈ visited st') →
  I st → (∀ d, d ∈ ds → ok d) →
  visit_each v st ds = Ok st' →
  I st' ∧ ∀ d, d ∈ ds → d ∈ visited st'.
Proof.
  intros Hv. revert st. induction ds as [|d ds IH]; simpl; intros st HI Hok H.
  - injection H as <-. split; [done | intros d Hd; by apply elem_of_nil in Hd].
  - apply bind_Ok in H as (st1 & H1 & H2).
    destruct (Hv _ _ _ HI (Hok d ltac:(left)) H1) as [HI1 Hd1].
    destruct (IH st1 HI1 (fun d' Hd' => Hok d' ltac:(by right)) H2)
      as [HI' Hds].
    split; [done | intros d' [->|Hd']%elem_of_cons; [|by auto]].
    apply visit_each_extends in H2 as (_ & Hsub & _). by apply Hsub.
Qed.

(** A failure of the loop is a failure of one of its calls, made with
    the in-progress set the loop started with. *)
Lemma visit_each_Throw ds st e :
  visit_each v st ds = Throw e →
  ∃ st1 d, d ∈ ds ∧ visiting st1 = visiting st ∧ v st1 d = Throw e.
Proof.
  revert st. induction ds as [|d ds IH]; simpl; intros st H; [done|].
  apply bind_Throw in H as [H | (st1 & H1 & H2)].
  - exists st, d. split_and!; [by left | done | done].
  - destruct (IH _ H2) as (st2 & d' & Hd' & Hvis & Hthrow).
    exists st2, d'. split_and!; [by right | | done].
    apply v_extends in H1 as (E & _). congruence.
Qed.

Lemma visit_each_OutOfFuel ds st :
  visit_each v st ds = OutOfFuel →
  ∃ st1 d, d ∈ ds ∧ visiting st1 = visiting st ∧ v st1 d = OutOfFuel.
Proof.
  revert st. induction ds as [|d ds IH]; simpl; intros st H; [done|].
  apply bind_OutOfFuel in H as [H | (st1 & H1 & H2)].
  - exists st, d. split_and!; [by left | done | done].
  - destruct (IH _ H2) as (st2 & d' & Hd' & Hvis & Hout).
    exists st2, d'. split_and!; [by right | | done].
    apply v_extends in H1 as (E & _). congruence.
Qed.
End visit_each.

(** ** Graph lookups *)

Lemma graph_get_Some g k ds : graph_get g k = Some ds → (k, ds) ∈ g.
Proof.
  induction g as [|[k' v] g IH]; simpl; [done|].
  destruct (String.eqb_spec k k') as [->|Hne].
  - intros [= ->]. by left.
  - intros H. right. by apply IH.
Qed.

Lemma deps_of_entry g x d :
  d ∈ deps_of g x → ∃ ds, (x, ds) ∈ g ∧ d ∈ ds.
Proof.
  unfold deps_of. destruct (graph_get g x) as [ds|] eqn:E; simpl.
  - intros Hd. exists ds. split; [by apply graph_get_Some | done].
  - by intros ?%elem_of_nil.
Qed.

Lemma deps_of_key g x d : d ∈ deps_of g x → x ∈ graph_keys g.
Proof.
  intros (ds & Hin & _)%deps_of_entry.
  unfold graph_keys. apply list_elem_of_fmap. by exists (x, ds).
Qed.

Lemma deps_of_node g x d : d ∈ deps_of g x → d ∈ graph_nodes g.
Proof.
  intros (ds & Hin & Hd)%deps_of_entry.
  unfold graph_nodes. apply elem_of_app. right.
  apply list_elem_of_join. exists ds. split; [done|].
  apply list_elem_of_fmap. by exists (x, ds).
Qed.

Lemma key_node g x : x ∈ graph_keys g → x ∈ graph_nodes g.
Proof. intros. unfold graph_nodes. apply elem_of_app. by left. Qed.

Section Scheduler.
Variable g : DepGraph.



Lemma dfs_inv_init : dfs_inv g dfs_init.
Proof.
  split; simpl.
  - intros y. split; [by intros ?%not_elem_of_empty | by intros ?%elem_of_nil].
  - constructor.
  - intros y ?%not_elem_of_empty. done.
  - intros y d ?%elem_of_nil. done.
  - intros y ?%elem_of_nil. done.
Qed.

Lemma visit_extends fuel st x st' :
  visit g fuel st x = Ok st' → extends st st'.
Proof.
  revert st x st'. induction fuel as [|fuel IH]; simpl; intros st x st' H;
    [done|].
  case_bool_decide as Hing; [done|].
  case_bool_decide as Hed; [injection H as <-; apply extends_refl|].
  apply bind_Ok in H as (st2 & H2 & H). injection H as <-.
  apply (visit_each_extends _ IH) in H2 as (Hvis & Hsub & l & Hord).
  simpl in *. split_and!; simpl.
  - rewrite Hvis. apply set_eq. intros y.
    rewrite elem_of_difference, elem_of_union, elem_of_singleton.
    split; [intros [[->|?] ?]; done | intros ?; split; [by right | congruence]].
  - intros y Hy. apply elem_of_union. right. by apply Hsub.
  - exists (l ++ [x]). by rewrite Hord, <- app_assoc.
Qed.

Lemma visit_inv fuel st x st' :
  dfs_inv g st → x ∈ graph_nodes g → visit g fuel st x = Ok st' →
  dfs_inv g st' ∧ x ∈ visited st'.
Proof.
  revert st x st'. induction fuel as [|fuel IH]; simpl;
    intros st x st' HI Hx H; [done|].
  case_bool_decide as Hing; [done|].
  case_bool_decide as Hed; [injection H as <-; done|].
  apply bind_Ok in H as (st2 & H2 & H). injection H as <-.
  set (st1 := mkDfs (order st) (visited st) ({[x]} ∪ visiting st)) in *.
  assert (dfs_inv g st1) as HI1.
  { destruct HI. split; simpl; try done.
    intros y [->%elem_of_singleton|Hy]%elem_of_union; auto. }
  pose proof (visit_each_extends _ (visit_extends fuel) _ _ _ H2)
    as (Hvis & Hsub & l & Hord).
  apply (visit_each_inv _ (visit_extends fuel) (dfs_inv g)
           (fun d => d ∈ graph_nodes g)) in H2 as [HI2 Hdeps];
    [|by apply IH|done|by intros d ?%deps_of_node].
  simpl in Hvis. destruct HI2 as [Hv2 Hnd2 Hdj2 Hdp2 Hn2].
  assert (x ∉ order st2) as Hfresh.
  { rewrite <- Hv2. apply Hdj2. rewrite Hvis.
    apply elem_of_union. left. by apply elem_of_singleton. }
  split; [split; simpl|simpl].
  - intros y. rewrite elem_of_union, elem_of_singleton, elem_of_app,
      list_elem_of_singleton, Hv2. tauto.
  - apply NoDup_app. split_and!; [done | | apply NoDup_singleton].
    intros y Hy ->%list_elem_of_singleton. done.
  - intros y [Hy Hyx]%elem_of_difference.
    rewrite elem_of_union. intros [?|Hy']; [done|].
    by apply (Hdj2 y).
  - intros y d [Hy| ->%list_elem_of_singleton]%elem_of_app Hedge.
    + apply precedes_app_l. by apply Hdp2.
    + apply precedes_snoc. apply Hv2. by apply Hdeps.
  - intros y [Hy| ->%list_elem_of_singleton]%elem_of_app; auto.
  - apply elem_of_union. left. by apply elem_of_singleton.
Qed.

(** A thrown error names a task that reaches itself. *)
Lemma visit_Throw fuel st x e :
  (∀ u, u ∈ visiting st → tc (edge g) u x) →
  visit g fuel st x = Throw e →
  ∃ y, e = CircularDependency y ∧ on_cycle g y.
Proof.
  revert st x e. induction fuel as [|fuel IH]; simpl; intros st x e Hpath H;
    [done|].
  case_bool_decide as Hing.
  { injection H as <-. exists x. split; [done | by apply Hpath]. }
  case_bool_decide as Hed; [done|].
  apply bind_Throw in H as [H | (st2 & _ & H)]; [|done].
  apply (visit_each_Throw _ (visit_extends fuel)) in H
    as (st3 & d & Hd & Hvis & H). simpl in Hvis.
  apply (IH st3 d e); [|done].
  intros u. rewrite Hvis, elem_of_union, elem_of_singleton.
  intros [->|Hu].
  - by apply tc_once.
  - eapply tc_r; [by apply Hpath | done].
Qed.

(** *** Termination: the recursion is never deeper than the number of
    task ids *)


Lemma visit_fuel fuel st x :
  x ∈ graph_nodes g →
  size (node_set g ∖ visiting st) < fuel →
  visit g fuel st x ≠ OutOfFuel.
Proof.
  revert st x. induction fuel as [|fuel IH]; simpl; intros st x Hx Hsize H;
    [lia|].
  case_bool_decide as Hing; [done|].
  case_bool_decide as Hed; [done|].
  apply bind_OutOfFuel in H as [H | (st2 & _ & H)]; [|done].
  apply (visit_each_OutOfFuel _ (visit_extends fuel)) in H
    as (st3 & d & Hd & Hvis & H). simpl in Hvis.
  apply (IH st3 d); [by eapply deps_of_node | | done].
  rewrite Hvis.
  assert (node_set g ∖ ({[x]} ∪ visiting st) ⊂ node_set g ∖ visiting st) as Hsub.
  { split.
    - intros y. rewrite !elem_of_difference, elem_of_union. tauto.
    - intros Hsup. specialize (Hsup x).
      rewrite !elem_of_difference, elem_of_union, elem_of_singleton in Hsup.
      unfold node_set in Hsup. rewrite elem_of_list_to_set in Hsup. tauto. }
  apply subset_size in Hsub. lia.
Qed.

Lemma size_node_set : size (node_set g) < dfs_fuel g.
Proof.
  unfold node_set, dfs_fuel. generalize (graph_nodes g). intros l.
  induction l as [|x l IH].
  - rewrite list_to_set_nil, size_empty. simpl. lia.
  - rewrite list_to_set_cons, size_union_alt, size_singleton.
    assert (size (list_to_set (C:=gset string) l ∖ {[x]})
            ≤ size (list_to_set (C:=gset string) l))%nat.
    { apply subseteq_size. intros y. rewrite elem_of_difference. tauto. }
    simpl in *. lia.
Qed.

(** *** The loop over the keys *)

Lemma visit_keys_extends fuel keys st st' :
  visit_keys g fuel st keys = Ok st' → extends st st'.
Proof.
  revert st. induction keys as [|k keys IH]; simpl; intros st H.
  - injection H as <-. apply extends_refl.
  - case_bool_decide; [by apply IH|].
    apply bind_Ok in H as (st1 & H1 & H2).
    eapply extends_trans; [by eapply visit_extends | by apply IH].
Qed.

Lemma visit_keys_inv fuel keys st st' :
  dfs_inv g st → (∀ k, k ∈ keys → k ∈ graph_nodes g) →
  visit_keys g fuel st keys = Ok st' →
  dfs_inv g st' ∧ ∀ k, k ∈ keys → k ∈ visited st'.
Proof.
  revert st. induction keys as [|k keys IH]; simpl; intros st HI Hk H.
  - injection H as <-. split; [done | by intros k ?%elem_of_nil].
  - assert (∀ k', k' ∈ keys → k' ∈ graph_nodes g) as Hk'
        by (intros; apply Hk; by right).
    case_bool_decide as Hed.
    + destruct (IH st HI Hk' H) as [HI' Hks]. split; [done|].
      intros k' [->|?]%elem_of_cons; [|by auto].
      apply visit_keys_extends in H as (_ & Hsub & _). by apply Hsub.
    + apply bind_Ok in H as (st1 & H1 & H2).
      apply visit_inv in H1 as [HI1 Hk1]; [|done|apply Hk; by left].
      destruct (IH st1 HI1 Hk' H2) as [HI' Hks]. split; [done|].
      intros k' [->|?]%elem_of_cons; [|by auto].
      apply visit_keys_extends in H2 as (_ & Hsub & _). by apply Hsub.
Qed.

Lemma visit_keys_Throw fuel keys st e :
  visiting st = ∅ →
  visit_keys g fuel st keys = Throw e →
  ∃ y, e = CircularDependency y ∧ on_cycle g y.
Proof.
  revert st. induction keys as [|k keys IH]; simpl; intros st Hvis H; [done|].
  case_bool_decide as Hed; [by eapply IH|].
  apply bind_Throw in H as [H | (st1 & H1 & H2)].
  - eapply visit_Throw; [|done].
    intros u. rewrite Hvis. by intros ?%not_elem_of_empty.
  - apply (IH st1); [|done].
    apply visit_extends in H1 as (-> & _). done.
Qed.

Lemma visit_keys_fuel fuel keys st :
  size (node_set g) < fuel →
  visiting st = ∅ → (∀ k, k ∈ keys → k ∈ graph_nodes g) →
  visit_keys g fuel st keys ≠ OutOfFuel.
Proof.
  intros Hfuel. revert st.
  induction keys as [|k keys IH]; simpl; intros st Hvis Hk H; [done|].
  assert (∀ k', k' ∈ keys → k' ∈ graph_nodes g) as Hk'
      by (intros; apply Hk; by right).
  case_bool_decide as Hed; [by eapply IH|].
  apply bind_OutOfFuel in H as [H | (st1 & H1 & H2)].
  - eapply visit_fuel; [apply Hk; by left | | exact H].
    assert (size (node_set g ∖ visiting st) ≤ size (node_set g))%nat.
    { apply subseteq_size. intros y. rewrite elem_of_difference. tauto. }
    lia.
  - apply (IH st1); [|done|done].
    apply visit_extends in H1 as (-> & _). done.
Qed.
End Scheduler.

(** ** [calculateExecutionOrder] as a whole *)

Lemma calculateExecutionOrder_returns g c :
  calculateExecutionOrder g c ≠ OutOfFuel.
Proof.
  unfold calculateExecutionOrder. intros H.
  apply bind_OutOfFuel in H as [H | (st & _ & H)]; [|done].
  revert H. apply visit_keys_fuel; [apply size_node_set | done |].
  intros k. apply key_node.
Qed.

Lemma calculateExecutionOrder_Ok g c l :
  calculateExecutionOrder g c = Ok l →
  NoDup l ∧
  (∀ k, k ∈ graph_keys g → k ∈ l) ∧
  (∀ y, y ∈ l → y ∈ graph_nodes g) ∧
  (∀ y d, y ∈ l → edge g y d → precedes d y l).
Proof.
  unfold calculateExecutionOrder. intros H.
  apply bind_Ok in H as (st & H & [= <-]).
  apply visit_keys_inv in H as [[Hv Hnd _ Hdp Hn] Hk];
    [|apply dfs_inv_init|intros k; apply key_node].
  split_and!; [done| |done|done].
  intros k Hin. apply Hv. by apply Hk.
Qed.

Lemma calculateExecutionOrder_Throw g c e :
  calculateExecutionOrder g c = Throw e →
  ∃ y, e = CircularDependency y ∧ on_cycle g y.
Proof.
  unfold calculateExecutionOrder. intros H.
  apply bind_Throw in H as [H | (st & _ & H)]; [|done].
  eapply visit_keys_Throw; [|exact H]. done.
Qed.

(** An order that lists every key after its dependencies rules out
    cycles. *)
Lemma topological_order_acyclic g l :
  NoDup l →
  (∀ k, k ∈ graph_keys g → k ∈ l) →
  (∀ y d, y ∈ l → edge g y d → precedes d y l) →
  acyclic g.
Proof.
  intros Hnd Hkeys Hdeps.
  assert (∀ x y, tc (edge g) x y → precedes y x l) as Hpath.
  { induction 1 as [x y Hxy | x y z Hxy _ IH].
    - apply Hdeps; [|done]. apply Hkeys. by eapply deps_of_key.
    - eapply precedes_trans; [done | exact IH |].
      apply Hdeps; [|done]. apply Hkeys. by eapply deps_of_key. }
  intros x Hx. by apply (precedes_irrefl x l Hnd), Hpath.
Qed.

Lemma calculateExecutionOrder_Ok_acyclic g c l :
  calculateExecutionOrder g c = Ok l → acyclic g.
Proof.
  intros (Hnd & Hk & _ & Hd)%calculateExecutionOrder_Ok.
  by eapply topological_order_acyclic.
Qed.

Lemma calculateExecutionOrder_acyclic g c :
  acyclic g → ∃ l, calculateExecutionOrder g c = Ok l.
Proof.
  intros Hacyc. destruct (calculateExecutionOrder g c) as [l|e|] eqn:E.
  - by exists l.
  - apply calculateExecutionOrder_Throw in E as (y & _ & Hy).
    by destruct (Hacyc y).
  - by apply calculateExecutionOrder_returns in E.
Qed.

(** ** Re-checking an order against the dependency sets *)


Lemma violations_from_zero g scheduled rest :
  NoDup (scheduled ++ rest) →
  (∀ y d, y ∈ rest → edge g y d → precedes d y (scheduled ++ rest)) →
  violations_from g scheduled rest = 0.
Proof.
  revert scheduled. induction rest as [|x rest IH]; simpl; intros sch Hnd Hd;
    [done|].
  rewrite IH.
  - rewrite Nat.add_0_r.
    destruct (filter _ (deps_of g x)) as [|d ds] eqn:E; [done|].
    assert (d ∈ filter (fun d => d ∉ sch) (deps_of g x)) as Hd'
        by (rewrite E; left).
    apply list_elem_of_filter in Hd' as [Hnot Hin].
    destruct Hnot.
    destruct (Hd x d ltac:(left) Hin) as (i & j & Hi & Hj & Hij).
    assert (j = length sch) as ->.
    { eapply NoDup_lookup; [done | done |]. by rewrite list_lookup_middle. }
    rewrite lookup_app_l in Hi by done. by eapply list_elem_of_lookup_2.
  - by rewrite <- app_assoc.
  - intros y d Hy Hedge. rewrite <- app_assoc. apply Hd; [by right | done].
Qed.

(** ** [buildDependencyGraph] *)

Lemma graph_set_keys g k v :
  graph_keys (graph_set g k v) =
  if bool_decide (k ∈ graph_keys g) then graph_keys g else graph_keys g ++ [k].
Proof.
  unfold graph_keys. induction g as [|[k' v'] g IH]; [done|].
  cbn [graph_set]. destruct (String.eqb_spec k k') as [->|Hne].
  - rewrite !fmap_cons. cbn [fst].
    rewrite bool_decide_eq_true_2 by left. done.
  - rewrite !fmap_cons, IH. cbn [fst].
    destruct (decide (k ∈ g.*1)) as [Hin|Hout].
    + rewrite !bool_decide_eq_true_2; [done | by right | done].
    + rewrite !bool_decide_eq_false_2; [done | | done].
      by intros [?|?]%elem_of_cons.
Qed.

Lemma graph_get_set g k v k' :
  graph_get (graph_set g k v) k' =
  if String.eqb k' k then Some v else graph_get g k'.
Proof.
  induction g as [|[k0 v0] g IH]; simpl; [done|].
  destruct (String.eqb_spec k k0) as [->|Hne]; simpl.
  - by destruct (String.eqb_spec k' k0).
  - rewrite IH. destruct (String.eqb_spec k' k0) as [->|?]; [|done].
    destruct (String.eqb_spec k0 k); congruence.
Qed.

Lemma graph_set_entry g k v k' v' :
  (k', v') ∈ graph_set g k v → (k', v') ∈ g ∨ (k' = k ∧ v' = v).
Proof.
  induction g as [|[k0 v0] g IH]; simpl.
  - intros [= -> ->]%list_elem_of_singleton. by right.
  - destruct (String.eqb_spec k k0) as [->|Hne].
    + intros [[= -> ->]|?]%elem_of_cons; [by right | left; by right].
    + intros [[= -> ->]|Hin]%elem_of_cons; [left; by left|].
      destruct (IH Hin); [left; by right | by right].
Qed.

Lemma buildDependencyGraph_snoc tasks t :
  buildDependencyGraph (tasks ++ [t]) =
  graph_set (buildDependencyGraph tasks) (Task.id t) (Task.dependencies t).
Proof. unfold buildDependencyGraph. by rewrite fold_left_app. Qed.

Lemma buildDependencyGraph_keys_elem tasks x :
  x ∈ graph_keys (buildDependencyGraph tasks) ↔ x ∈ Task.id <$> tasks.
Proof.
  induction tasks as [|t tasks IH] using rev_ind.
  - done.
  - rewrite buildDependencyGraph_snoc, graph_set_keys, fmap_app, elem_of_app.
    simpl. rewrite list_elem_of_singleton, <- IH.
    case_bool_decide; [|rewrite elem_of_app, list_elem_of_singleton; tauto].
    split; [tauto | intros [?| ->]; done].
Qed.

Lemma buildDependencyGraph_keys_NoDup tasks :
  NoDup (graph_keys (buildDependencyGraph tasks)).
Proof.
  induction tasks as [|t tasks IH] using rev_ind.
  - constructor.
  - rewrite buildDependencyGraph_snoc, graph_set_keys.
    case_bool_decide; [done|].
    apply NoDup_app. split_and!; [done | | apply NoDup_singleton].
    intros y Hy ->%list_elem_of_singleton. done.
Qed.

Lemma buildDependencyGraph_keys tasks :
  NoDup (Task.id <$> tasks) →
  graph_keys (buildDependencyGraph tasks) = Task.id <$> tasks.
Proof.
  induction tasks as [|t tasks IH] using rev_ind; [done|].
  rewrite fmap_app. simpl. intros (Hnd & Hfresh & _)%NoDup_app.
  rewrite buildDependencyGraph_snoc, graph_set_keys, IH by done.
  case_bool_decide as Hin; [|done].
  destruct (Hfresh _ Hin). by left.
Qed.

Lemma buildDependencyGraph_entry tasks k v :
  (k, v) ∈ buildDependencyGraph tasks →
  ∃ t, t ∈ tasks ∧ Task.id t = k ∧ Task.dependencies t = v.
Proof.
  induction tasks as [|t tasks IH] using rev_ind.
  - by intros ?%elem_of_nil.
  - rewrite buildDependencyGraph_snoc.
    intros [Hin|[-> ->]]%graph_set_entry.
    + destruct (IH Hin) as (t' & ? & ? & ?). exists t'.
      split; [apply elem_of_app; by left | done].
    + exists t. split; [apply elem_of_app; right; by left | done].
Qed.

Lemma buildDependencyGraph_deps_of tasks t :
  NoDup (Task.id <$> tasks) → t ∈ tasks →
  deps_of (buildDependencyGraph tasks) (Task.id t) = Task.dependencies t.
Proof.
  induction tasks as [|t' tasks IH] using rev_ind.
  - by intros _ ?%elem_of_nil.
  - rewrite fmap_app. simpl. intros (Hnd & Hfresh & _)%NoDup_app Hin.
    rewrite buildDependencyGraph_snoc. unfold deps_of.
    rewrite graph_get_set.
    apply elem_of_app in Hin as [Hin| ->%list_elem_of_singleton].
    + destruct (String.eqb_spec (Task.id t) (Task.id t')) as [E|_].
      * destruct (Hfresh (Task.id t)); [|rewrite E; by left].
        apply list_elem_of_fmap. by exists t.
      * by apply IH.
    + by rewrite String.eqb_refl.
Qed.


Lemma references_closed_nodes tasks y :
  references_closed tasks →
  y ∈ graph_nodes (buildDependencyGraph tasks) → y ∈ Task.id <$> tasks.
Proof.
  intros Hclosed [Hy|Hy]%elem_of_app.
  - by apply buildDependencyGraph_keys_elem.
  - apply list_elem_of_join in Hy as (ds & Hy & Hds).
    apply list_elem_of_fmap in Hds as ([k v] & -> & Hin). simpl in Hy.
    apply buildDependencyGraph_entry in Hin as (t & Ht & _ & <-).
    unfold references_closed in Hclosed.
    rewrite Forall_forall in Hclosed. specialize (Hclosed t Ht).
    rewrite Forall_forall in Hclosed. by apply Hclosed.
Qed.

(** ** [createExecutionPlan] in terms of its parts *)

Lemma createExecutionPlan_Ok env tasks c l :
  calculateExecutionOrder (buildDependencyGraph tasks) c = Ok l →
  ∃ plan env',
    createExecutionPlan env tasks c = Ok (plan, env') ∧
    ExecutionPlan.executionOrder plan = l ∧
    ExecutionPlan.parallelGroups plan =
      identifyParallelGroups tasks (buildDependencyGraph tasks) ∧
    ExecutionPlan.resourceAllocation plan = allocateResources tasks c ∧
    ExecutionPlan.checkpoints plan = fst (createCheckpoints env tasks l) ∧
    ExecutionPlan.fallbackStrategies plan = defineFallbackStrategies tasks ∧
    (ExecutionPlan.estimatedDuration plan, ExecutionPlan.estimatedCost plan) =
      calculateEstimates tasks
        (identifyParallelGroups tasks (buildDependencyGraph tasks)).
Proof.
  intros H. unfold createExecutionPlan. rewrite H. cbn [bind].
  destruct (createCheckpoints env tasks l) as [cps env1].
  destruct (calculateEstimates _ _) as [duration cost].
  cbn. eexists _, _. split; [reflexivity|]. cbn. by split_and!.
Qed.

Lemma createExecutionPlan_Throw env tasks c e :
  createExecutionPlan env tasks c = Throw e →
  ∃ cause, e = PlanCreationFailed cause ∧
           calculateExecutionOrder (buildDependencyGraph tasks) c = Throw cause.
Proof.
  unfold createExecutionPlan.
  destruct (calculateExecutionOrder _ c) as [l|cause|] eqn:E; cbn [bind].
  - destruct (createCheckpoints env tasks l) as [cps env1].
    destruct (calculateEstimates _ _) as [duration cost]. done.
  - intros [= <-]. by exists cause.
  - done.
Qed.

Lemma createExecutionPlan_returns env tasks c :
  createExecutionPlan env tasks c ≠ OutOfFuel.
Proof.
  unfold createExecutionPlan.
  destruct (calculateExecutionOrder _ c) as [l|cause|] eqn:E; cbn [bind].
  - destruct (createCheckpoints env tasks l) as [cps env1].
    destruct (calculateEstimates _ _) as [duration cost]. done.
  - done.
  - by apply calculateExecutionOrder_returns in E.
Qed.

(* ===================================================================== *)
(** * The claims *)
(* ===================================================================== *)

(** ** Topological scheduler *)

(** C1.  For every task list whose dependency graph is acyclic and whose
    dependency references all name tasks of the list,
    [calculateExecutionOrder] returns an order that is a permutation of
    the task ids (of the keys of the graph, which are the ids without
    repetition; of the id list itself when the ids are unique), in which
    every task comes after all of its dependencies; re-checking the
    order against the dependency sets finds zero violations.  The
    statement about the dependencies is given for the graph and, for
    lists with unique ids, for the tasks themselves. *)
Theorem C1_execution_order_is_topological
    (tasks : list Task.t) (constraints : PlanningConstraints.t) :
  acyclic (buildDependencyGraph tasks) →
  references_closed tasks →
  ∃ executionOrder,
    calculateExecutionOrder (buildDependencyGraph tasks) constraints
      = Ok executionOrder ∧
    executionOrder ≡ₚ graph_keys (buildDependencyGraph tasks) ∧
    (∀ x, x ∈ executionOrder ↔ x ∈ Task.id <$> tasks) ∧
    (NoDup (Task.id <$> tasks) → executionOrder ≡ₚ Task.id <$> tasks) ∧
    (∀ x d, x ∈ executionOrder →
            d ∈ deps_of (buildDependencyGraph tasks) x →
            precedes d x executionOrder) ∧
    (NoDup (Task.id <$> tasks) →
     ∀ t d, t ∈ tasks → d ∈ Task.dependencies t →
            precedes d (Task.id t) executionOrder) ∧
    dependency_violations (buildDependencyGraph tasks) executionOrder = 0.
Proof.
  intros Hacyc Hclosed.
  destruct (calculateExecutionOrder_acyclic _ constraints Hacyc) as [l Hl].
  exists l. split; [done|].
  apply calculateExecutionOrder_Ok in Hl as (Hnd & Hkeys & Hnodes & Hdeps).
  assert (∀ x, x ∈ l ↔ x ∈ Task.id <$> tasks) as Hset.
  { intros x. split.
    - intros Hx. by apply references_closed_nodes, Hnodes.
    - intros Hx. by apply Hkeys, buildDependencyGraph_keys_elem. }
  split_and!; [ | done | | done | |].
  - apply NoDup_Permutation;
      [done | apply buildDependencyGraph_keys_NoDup |].
    intros x. by rewrite Hset, buildDependencyGraph_keys_elem.
  - intros Hids. by apply NoDup_Permutation.
  - intros Hids t d Ht Hd. apply Hdeps.
    + apply Hset, list_elem_of_fmap. by exists t.
    + unfold edge. by rewrite buildDependencyGraph_deps_of.
  - unfold dependency_violations. by apply violations_from_zero.
Qed.

(** C2.  For every task list whose dependency graph contains a cycle,
    [calculateExecutionOrder] throws the circular-dependency error; the
    task id it names lies on a cycle of the graph, and no execution
    order is produced. *)
Theorem C2_cycle_is_reported
    (tasks : list Task.t) (constraints : PlanningConstraints.t) :
  cyclic (buildDependencyGraph tasks) →
  ∃ taskId,
    calculateExecutionOrder (buildDependencyGraph tasks) constraints
      = Throw (CircularDependency taskId) ∧
    on_cycle (buildDependencyGraph tasks) taskId ∧
    ∀ executionOrder,
      calculateExecutionOrder (buildDependencyGraph tasks) constraints
        ≠ Ok executionOrder.
Proof.
  intros [x Hx].
  destruct (calculateExecutionOrder _ constraints) as [l|e|] eqn:E.
  - apply calculateExecutionOrder_Ok_acyclic in E. by destruct (E x).
  - apply calculateExecutionOrder_Throw in E as (y & -> & Hy).
    exists y. by split_and!.
  - by apply calculateExecutionOrder_returns in E.
Qed.

Lemma C1_witness :
  acyclic (buildDependencyGraph tasks_ABC) ∧
  references_closed tasks_ABC ∧
  ∃ executionOrder,
    calculateExecutionOrder (buildDependencyGraph tasks_ABC)
      PlanningConstraints.empty = Ok executionOrder ∧
    executionOrder ≡ₚ graph_keys (buildDependencyGraph tasks_ABC) ∧
    (∀ x, x ∈ executionOrder ↔ x ∈ Task.id <$> tasks_ABC) ∧
    (NoDup (Task.id <$> tasks_ABC) →
     executionOrder ≡ₚ Task.id <$> tasks_ABC) ∧
    (∀ x d, x ∈ executionOrder →
            d ∈ deps_of (buildDependencyGraph tasks_ABC) x →
            precedes d x executionOrder) ∧
    (NoDup (Task.id <$> tasks_ABC) →
     ∀ t d, t ∈ tasks_ABC → d ∈ Task.dependencies t →
            precedes d (Task.id t) executionOrder) ∧
    dependency_violations (buildDependencyGraph tasks_ABC) executionOrder = 0.
Proof.
  assert (acyclic (buildDependencyGraph tasks_ABC)) as Hacyclic.
  { apply (calculateExecutionOrder_Ok_acyclic _ PlanningConstraints.empty
             ["A"; "B"; "C"]).
    vm_compute. reflexivity. }
  assert (references_closed tasks_ABC) as Hclosed.
  { unfold references_closed, tasks_ABC. repeat constructor. }
  split; [exact Hacyclic|]. split; [exact Hclosed|].
  exact (C1_execution_order_is_topological tasks_ABC
           PlanningConstraints.empty Hacyclic Hclosed).
Defined.

Example C1_sample_order :
  calculateExecutionOrder (buildDependencyGraph tasks_ABC)
    PlanningConstraints.empty = Ok ["A"; "B"; "C"].
Proof. vm_compute. reflexivity. Qed.

Lemma C2_witness :
  cyclic (buildDependencyGraph tasks_cycle) ∧
  ∃ taskId,
    calculateExecutionOrder (buildDependencyGraph tasks_cycle)
      PlanningConstraints.empty = Throw (CircularDependency taskId) ∧
    on_cycle (buildDependencyGraph tasks_cycle) taskId ∧
    ∀ executionOrder,
      calculateExecutionOrder (buildDependencyGraph tasks_cycle)
        PlanningConstraints.empty ≠ Ok executionOrder.
Proof.
  assert (cyclic (buildDependencyGraph tasks_cycle)) as Hcyclic.
  { exists "A". apply tc_l with "B"; [|apply tc_once].
    - unfold edge. vm_compute. repeat constructor.
    - unfold edge. vm_compute. repeat constructor. }
  split; [exact Hcyclic|].
  exact (C2_cycle_is_reported tasks_cycle PlanningConstraints.empty Hcyclic).
Defined.

Example C2_sample_error :
  calculateExecutionOrder (buildDependencyGraph tasks_cycle)
    PlanningConstraints.empty = Throw (CircularDependency "A").
Proof. vm_compute. reflexivity. Qed.

(** ** Dependency graph builder *)

(** C4, as stated, fails: a dependency on an id that no task carries is
    not rejected.  The plan is built and schedules the unknown id. *)
Lemma C4_counterexample :
  "ghost" ∈ Task.dependencies (sample_task "B" 20 ["ghost"]) ∧
  ("ghost" ∉ Task.id <$> tasks_dangling) ∧
  buildDependencyGraph tasks_dangling = [("B", ["ghost"])] ∧
  ∃ plan env',
    createExecutionPlan sample_env tasks_dangling PlanningConstraints.empty
      = Ok (plan, env') ∧
    ExecutionPlan.executionOrder plan = ["ghost"; "B"].
Proof.
  split_and!.
  - by left.
  - vm_compute. intros H. inversion H as [|? ? ? H']. inversion H'.
  - reflexivity.
  - eexists _, _. split; vm_compute; reflexivity.
Qed.

(** C4, amended.  [buildDependencyGraph] records a dangling dependency
    unchecked and nothing raises an unknown-reference error: for a task
    list with unique ids in which task [t] depends on an id [d] that no
    task carries, [d] is an edge of the graph; when the graph is acyclic
    [createExecutionPlan] returns a plan whose [executionOrder] contains
    [d], placed before [t]; and the only failure is the
    circular-dependency error, naming a task on a cycle. *)
Theorem C4_dangling_reference_is_scheduled
    (env : Env) (tasks : list Task.t) (constraints : PlanningConstraints.t)
    (t : Task.t) (d : string) :
  NoDup (Task.id <$> tasks) →
  t ∈ tasks → d ∈ Task.dependencies t → d ∉ Task.id <$> tasks →
  edge (buildDependencyGraph tasks) (Task.id t) d ∧
  (acyclic (buildDependencyGraph tasks) →
   ∃ plan env',
     createExecutionPlan env tasks constraints = Ok (plan, env') ∧
     precedes d (Task.id t) (ExecutionPlan.executionOrder plan)) ∧
  (∀ e, createExecutionPlan env tasks constraints = Throw e →
        ∃ y, e = PlanCreationFailed (CircularDependency y) ∧
             on_cycle (buildDependencyGraph tasks) y).
Proof.
  intros Hids Ht Hd Hdangling.
  assert (edge (buildDependencyGraph tasks) (Task.id t) d) as Hedge.
  { unfold edge. by rewrite buildDependencyGraph_deps_of. }
  split_and!; [done | |].
  - intros Hacyc.
    destruct (calculateExecutionOrder_acyclic _ constraints Hacyc) as [l Hl].
    destruct (createExecutionPlan_Ok env _ _ _ Hl)
      as (plan & env' & Hplan & Horder & _).
    exists plan, env'. split; [done|]. rewrite Horder.
    apply calculateExecutionOrder_Ok in Hl as (_ & Hkeys & _ & Hdeps).
    apply Hdeps; [|done].
    apply Hkeys, buildDependencyGraph_keys_elem, list_elem_of_fmap.
    by exists t.
  - intros e (cause & -> & Hthrow)%createExecutionPlan_Throw.
    apply calculateExecutionOrder_Throw in Hthrow as (y & -> & Hy).
    by exists y.
Qed.

Lemma C4_witness :
  NoDup (Task.id <$> tasks_dangling) ∧
  (sample_task "B" 20 ["ghost"]) ∈ tasks_dangling ∧
  "ghost" ∈ Task.dependencies (sample_task "B" 20 ["ghost"]) ∧
  ("ghost" ∉ Task.id <$> tasks_dangling) ∧
  edge (buildDependencyGraph tasks_dangling) "B" "ghost" ∧
  (acyclic (buildDependencyGraph tasks_dangling) →
   ∃ plan env',
     createExecutionPlan sample_env tasks_dangling PlanningConstraints.empty
       = Ok (plan, env') ∧
     precedes "ghost" "B" (ExecutionPlan.executionOrder plan)) ∧
  (∀ e, createExecutionPlan sample_env tasks_dangling
          PlanningConstraints.empty = Throw e →
        ∃ y, e = PlanCreationFailed (CircularDependency y) ∧
             on_cycle (buildDependencyGraph tasks_dangling) y).
Proof.
  assert (NoDup (Task.id <$> tasks_dangling)) as Hids.
  { vm_compute. repeat constructor. intros H. inversion H. }
  assert ((sample_task "B" 20 ["ghost"]) ∈ tasks_dangling) as Ht
      by (unfold tasks_dangling; left).
  assert ("ghost" ∈ Task.dependencies (sample_task "B" 20 ["ghost"])) as Hd
      by (simpl; left).
  assert ("ghost" ∉ (Task.id <$> tasks_dangling)) as Hdangling.
  { vm_compute. intros H. inversion H as [|? ? ? H']. inversion H'. }
  split; [exact Hids|]. split; [exact Ht|]. split; [exact Hd|].
  split; [exact Hdangling|].
  exact (C4_dangling_reference_is_scheduled sample_env tasks_dangling
           PlanningConstraints.empty _ _ Hids Ht Hd Hdangling).
Defined.

(** ** Parallel group identifier *)

(** C3 at the failing input: A and B are independent and C depends on B.
    The group opened by A takes B and then C, because C is compared with
    A only; the group holds C together with its dependency B. *)
Lemma C3_group_with_dependent_members :
  identifyParallelGroups tasks_chain_in_group
    (buildDependencyGraph tasks_chain_in_group) = [["A"; "B"; "C"]] ∧
  "B" ∈ deps_of (buildDependencyGraph tasks_chain_in_group) "C" ∧
  canRunInParallel "B" "C" (buildDependencyGraph tasks_chain_in_group)
    = false.
Proof.
  split_and!; [reflexivity | | reflexivity].
  vm_compute. by left.
Qed.

Lemma canRunInParallel_true g x y :
  canRunInParallel x y g = true ↔ ¬ edge g x y ∧ ¬ edge g y x.
Proof.
  unfold canRunInParallel, includes, edge.
  rewrite andb_true_iff, !negb_true_iff, !bool_decide_eq_false. done.
Qed.

Lemma collect_group_members g x others group processed :
  ∃ added,
    fst (collect_group g x others group processed) = group ++ added ∧
    Forall (fun y => canRunInParallel x y g = true) added.
Proof.
  revert group processed.
  induction others as [|other others IH]; intros group processed; simpl.
  - exists []. by rewrite app_nil_r.
  - case_bool_decide; [apply IH|].
    destruct (canRunInParallel x (Task.id other) g) eqn:E; [|apply IH].
    destruct (IH (group ++ [Task.id other]) ({[Task.id other]} ∪ processed))
      as (added & -> & Hall).
    exists (Task.id other :: added). split; [by rewrite <- app_assoc|].
    by constructor.
Qed.

Lemma group_tasks_starter g all todo groups processed :
  Forall (starter_independent g) groups →
  Forall (starter_independent g) (group_tasks g all todo groups processed).
Proof.
  revert groups processed.
  induction todo as [|task todo IH]; intros groups processed Hgroups; simpl;
    [done|].
  case_bool_decide; [by apply IH|].
  destruct (collect_group_members g (Task.id task) all [Task.id task]
              ({[Task.id task]} ∪ processed)) as (added & Hgroup & Hadded).
  destruct (collect_group _ _ _ _ _) as [group processed'].
  simpl in Hgroup. subst group.
  case_bool_decide; apply IH; [|done].
  apply Forall_app. split; [done|]. by repeat constructor.
Qed.

(** What [identifyParallelGroups] does ensure: in every group, each
    later member has no dependency edge to or from the member that
    opened the group. *)
Lemma identifyParallelGroups_starter_independent tasks g :
  Forall (starter_independent g) (identifyParallelGroups tasks g).
Proof. apply group_tasks_starter. constructor. Qed.

(** ** Estimates *)



(** ** Planning constraints *)

Lemma critical_checkpoints_shape env criticalTasks :
  checkpoint_shape <$> fst (critical_checkpoints env criticalTasks)
  = (fun t => (Task.id t, "task_completion", cp_pause)) <$> criticalTasks.
Proof.
  revert env. induction criticalTasks as [|t ts IH]; intros env; [done|].
  cbn [critical_checkpoints uuidv4].
  specialize (IH (mkEnv (uuid_source env) (S (uuid_next env)) (now env))).
  destruct (critical_checkpoints _ ts) as [cps env2].
  cbn [fst] in *. rewrite !fmap_cons, IH. done.
Qed.

Lemma createCheckpoints_shape env1 env2 tasks executionOrder :
  checkpoint_shape <$> fst (createCheckpoints env1 tasks executionOrder)
  = checkpoint_shape <$> fst (createCheckpoints env2 tasks executionOrder).
Proof.
  unfold createCheckpoints.
  pose proof (critical_checkpoints_shape env1
                (filter (fun t => Task.priority t = critical) tasks)) as H1.
  pose proof (critical_checkpoints_shape env2
                (filter (fun t => Task.priority t = critical) tasks)) as H2.
  destruct (critical_checkpoints env1 _) as [cps1 e1].
  destruct (critical_checkpoints env2 _) as [cps2 e2].
  cbn [fst] in *.
  case_bool_decide; [|cbn [fst]; by rewrite H1, H2].
  destruct (executionOrder !! _) as [taskId|]; [|cbn [fst]; by rewrite H1, H2].
  cbn [uuidv4 fst]. rewrite !fmap_app, H1, H2. done.
Qed.

(** C10.  The [constraints] argument has no effect on
    [createExecutionPlan]: with the same environment the results are
    equal, and with any two environments they are equal up to the
    generated ids and the creation time, the failure case included. *)
Theorem C10_constraints_are_ignored
    (env1 env2 : Env) (tasks : list Task.t)
    (c1 c2 : PlanningConstraints.t) :
  createExecutionPlan env1 tasks c1 = createExecutionPlan env1 tasks c2 ∧
  result_shape (createExecutionPlan env1 tasks c1)
  = result_shape (createExecutionPlan env2 tasks c2).
Proof.
  split; [reflexivity|].
  unfold createExecutionPlan, calculateExecutionOrder.
  destruct (visit_keys _ _ _ _) as [st| |]; cbn [bind rethrow result_shape];
    [|done|done].
  pose proof (createCheckpoints_shape env1 env2 tasks (order st)) as Hcp.
  destruct (createCheckpoints env1 tasks (order st)) as [cps1 e1].
  destruct (createCheckpoints env2 tasks (order st)) as [cps2 e2].
  destruct (calculateEstimates _ _) as [duration cost].
  cbn in *. unfold plan_shape. cbn. by rewrite Hcp.
Qed.

(** ** Plan adapter *)

Lemma filter_neqb (x : string) (l : list string) :
  List.filter (fun i => negb (String.eqb i x)) l = filter (fun y => y ≠ x) l.
Proof.
  induction l as [|y l IH]; [done|]. simpl.
  destruct (String.eqb_spec y x) as [->|Hne]; simpl.
  - by rewrite filter_cons_False by (intros H; by apply H).
  - by rewrite filter_cons_True, IH by done.
Qed.

Lemma indexOf_bound l x : (-1 ≤ indexOf l x < Z.of_nat (length l))%Z.
Proof.
  induction l as [|y l IH]; simpl; [lia|].
  destruct (String.eqb y x); [lia|].
  destruct (Z.ltb_spec (indexOf l x) 0); lia.
Qed.

Lemma move_to_end_length l x : length (move_to_end l x) = length l.
Proof.
  unfold move_to_end. pose proof (indexOf_bound l x).
  destruct (Z.ltb_spec (-1) (indexOf l x)); [|done].
  rewrite length_app, length_delete; simpl.
  - lia.
  - apply lookup_lt_is_Some_2. lia.
Qed.

Lemma adaptPlan_failed env P fb :
  ExecutionFeedback.status fb = failed →
  fst (adaptPlan env P fb) =
  let order' := filter (fun y => y ≠ ExecutionFeedback.taskId fb)
                       (ExecutionPlan.executionOrder P) in
  let factor := adjustment (ExecutionPlan.estimatedDuration P)
                  (ExecutionFeedback.actualDuration fb) (length order') in
  with_id
    (with_estimates (with_executionOrder P order')
       (JsNum.mul (ExecutionPlan.estimatedCost P) factor)
       (JsNum.mul (ExecutionPlan.estimatedDuration P) factor))
    (fst (uuidv4 env)).
Proof.
  intros Hst. unfold adaptPlan, analyzeFeedbackImpact,
    determineAdaptationStrategy, applyAdaptations, recalculateEstimates.
  rewrite Hst. cbn. by rewrite filter_neqb.
Qed.

Lemma adaptPlan_blocked env P fb :
  ExecutionFeedback.status fb = blocked →
  fst (adaptPlan env P fb) =
  let order' := move_to_end (ExecutionPlan.executionOrder P)
                            (ExecutionFeedback.taskId fb) in
  let factor := adjustment (ExecutionPlan.estimatedDuration P)
                  (ExecutionFeedback.actualDuration fb)
                  (length (ExecutionPlan.executionOrder P)) in
  with_id
    (with_estimates (with_executionOrder P order')
       (JsNum.mul (ExecutionPlan.estimatedCost P) factor)
       (JsNum.mul (ExecutionPlan.estimatedDuration P) factor))
    (fst (uuidv4 env)).
Proof.
  intros Hst. unfold adaptPlan, analyzeFeedbackImpact,
    determineAdaptationStrategy, applyAdaptations, recalculateEstimates.
  rewrite Hst. cbn. unfold per_task. cbn. by rewrite move_to_end_length.
Qed.



(** C7, as stated, fails for feedback [failed]: the plan of X and Y,
    estimated at 20, adapted for X failing after 10, gets the estimate
    20 × (10 / (20 / 1)) = 10, the average being taken over the one task
    that is left; the claimed value is 20 × (10 / (20 / 2)) = 20.  The
    cost is scaled by 1/2 where the claim has 1. *)
Lemma C7_counterexample :
  ExecutionPlan.executionOrder plan_XY ≠ [] ∧
  JsNum.lt (JsNum.of_Z 0) (ExecutionPlan.estimatedDuration plan_XY) = true ∧
  ExecutionPlan.estimatedDuration
    (fst (adaptPlan sample_env plan_XY (feedback_X failed))) = JsNum.of_Z 10 ∧
  JsNum.mul (ExecutionPlan.estimatedDuration plan_XY)
    (adjustment (ExecutionPlan.estimatedDuration plan_XY)
       (ExecutionFeedback.actualDuration (feedback_X failed))
       (length (ExecutionPlan.executionOrder plan_XY))) = JsNum.of_Z 20 ∧
  JsNum.eqb
    (ExecutionPlan.estimatedDuration
       (fst (adaptPlan sample_env plan_XY (feedback_X failed))))
    (JsNum.mul (ExecutionPlan.estimatedDuration plan_XY)
       (adjustment (ExecutionPlan.estimatedDuration plan_XY)
          (ExecutionFeedback.actualDuration (feedback_X failed))
          (length (ExecutionPlan.executionOrder plan_XY)))) = false ∧
  JsNum.eqb
    (ExecutionPlan.estimatedCost
       (fst (adaptPlan sample_env plan_XY (feedback_X failed))))
    (JsNum.mul (ExecutionPlan.estimatedCost plan_XY)
       (adjustment (ExecutionPlan.estimatedDuration plan_XY)
          (ExecutionFeedback.actualDuration (feedback_X failed))
          (length (ExecutionPlan.executionOrder plan_XY)))) = false.
Proof. split_and!; [done | vm_compute; reflexivity ..]. Qed.

(** C7, amended.  For feedback [failed] or [blocked] the adapted plan's
    [estimatedDuration] is the old one multiplied by
    actualDuration / (old estimatedDuration / n), and its
    [estimatedCost] the old one multiplied by the same factor, where n
    is the length of the adapted plan's [executionOrder]: for [blocked]
    that is the length of the old order, for [failed] the length of the
    old order without the failed task. *)
Theorem C7_estimates_use_adapted_order
    (env : Env) (P : ExecutionPlan.t) (fb : ExecutionFeedback.t) :
  ExecutionFeedback.status fb = failed ∨
  ExecutionFeedback.status fb = blocked →
  ExecutionPlan.estimatedDuration (fst (adaptPlan env P fb))
    = JsNum.mul (ExecutionPlan.estimatedDuration P)
        (adjustment (ExecutionPlan.estimatedDuration P)
           (ExecutionFeedback.actualDuration fb)
           (length (ExecutionPlan.executionOrder (fst (adaptPlan env P fb)))))
  ∧
  ExecutionPlan.estimatedCost (fst (adaptPlan env P fb))
    = JsNum.mul (ExecutionPlan.estimatedCost P)
        (adjustment (ExecutionPlan.estimatedDuration P)
           (ExecutionFeedback.actualDuration fb)
           (length (ExecutionPlan.executionOrder (fst (adaptPlan env P fb)))))
  ∧
  (ExecutionFeedback.status fb = blocked →
   length (ExecutionPlan.executionOrder (fst (adaptPlan env P fb)))
     = length (ExecutionPlan.executionOrder P)) ∧
  (ExecutionFeedback.status fb = failed →
   ExecutionPlan.executionOrder (fst (adaptPlan env P fb))
     = filter (fun y => y ≠ ExecutionFeedback.taskId fb)
              (ExecutionPlan.executionOrder P)).
Proof.
  intros [Hst|Hst].
  - rewrite (adaptPlan_failed env P fb Hst). cbn.
    split_and!; [done | done | | done]. by rewrite Hst.
  - rewrite (adaptPlan_blocked env P fb Hst). cbn.
    rewrite move_to_end_length.
    split_and!; [done | done | done |]. by rewrite Hst.
Qed.

Lemma C7_witness :
  (ExecutionFeedback.status (feedback_X blocked) = failed ∨
   ExecutionFeedback.status (feedback_X blocked) = blocked) ∧
  ExecutionPlan.estimatedDuration
    (fst (adaptPlan sample_env plan_XY (feedback_X blocked)))
    = JsNum.mul (ExecutionPlan.estimatedDuration plan_XY)
        (adjustment (ExecutionPlan.estimatedDuration plan_XY)
           (ExecutionFeedback.actualDuration (feedback_X blocked))
           (length (ExecutionPlan.executionOrder
                      (fst (adaptPlan sample_env plan_XY
                              (feedback_X blocked)))))).
Proof.
  assert (ExecutionFeedback.status (feedback_X blocked) = failed ∨
          ExecutionFeedback.status (feedback_X blocked) = blocked) as Hst
      by (right; reflexivity).
  split; [exact Hst|].
  exact (proj1 (C7_estimates_use_adapted_order sample_env plan_XY
                  (feedback_X blocked) Hst)).
Defined.

(** For feedback [completed] or [in_progress] the correction is applied
    twice: once to the duration alone, then to duration and cost with
    the factor recomputed from the corrected duration. *)
Lemma adaptPlan_adjust_estimates env P fb :
  ExecutionFeedback.status fb = completed ∨
  ExecutionFeedback.status fb = in_progress →
  let n := length (ExecutionPlan.executionOrder P) in
  let once :=
    JsNum.mul (ExecutionPlan.estimatedDuration P)
      (adjustment (ExecutionPlan.estimatedDuration P)
         (ExecutionFeedback.actualDuration fb) n) in
  let factor := adjustment once (ExecutionFeedback.actualDuration fb) n in
  ExecutionPlan.executionOrder (fst (adaptPlan env P fb))
    = ExecutionPlan.executionOrder P ∧
  ExecutionPlan.estimatedDuration (fst (adaptPlan env P fb))
    = JsNum.mul once factor ∧
  ExecutionPlan.estimatedCost (fst (adaptPlan env P fb))
    = JsNum.mul (ExecutionPlan.estimatedCost P) factor.
Proof.
  intros Hst. unfold adaptPlan, analyzeFeedbackImpact,
    determineAdaptationStrategy, applyAdaptations, recalculateEstimates.
  destruct Hst as [-> | ->]; cbn; done.
Qed.

(** ** Performance reflector *)

Lemma is_zero_of_nat n : JsNum.is_zero (inject_Z (Z.of_nat n)) = bool_decide (n = 0).
Proof.
  unfold JsNum.is_zero, Qeq_bool, inject_Z. simpl.
  case_bool_decide as Hn.
  - subst. reflexivity.
  - apply Z.eqb_neq. lia.
Qed.

(** With at least one completed or failed task the success rate is the
    finite ratio completed / (completed + failed). *)
Lemma successRate_ratio (results : ExecutionResults.t) :
  0 < length (ExecutionResults.completedTasks results)
      + length (ExecutionResults.failedTasks results) →
  successRate results =
  JsNum.Num
    (Qred (inject_Z (Z.of_nat (length (ExecutionResults.completedTasks results)))
           / inject_Z (Z.of_nat
               (length (ExecutionResults.completedTasks results)
                + length (ExecutionResults.failedTasks results))))).
Proof.
  intros Hpos. unfold successRate, JsNum.div, JsNum.of_nat, JsNum.of_Z.
  rewrite is_zero_of_nat, bool_decide_eq_false_2 by lia. done.
Qed.

(** C9 at the failing input: with no completed and no failed task the
    success rate is 0 / 0, which is NaN and not 0; both comparisons with
    NaN are false, so [weaknesses] is empty, as is [strengths]. *)
Theorem C9_empty_results_divide_zero_by_zero
    (planId : string) (overallStatus : OverallStatus)
    (totalDuration totalCost qualityScore : jsnum) (lessons : list string) :
  let results :=
    ExecutionResults.mk planId overallStatus [] [] totalDuration totalCost
      qualityScore lessons in
  successRate results = JsNum.NaN ∧
  JsNum.eqb (successRate results) (JsNum.of_Z 0) = false ∧
  JsNum.is_finite (successRate results) = false ∧
  weaknesses (analyzePerformance results) = [] ∧
  strengths (analyzePerformance results) = [] ∧
  PerformanceInsights.weaknesses (reflectOnPerformance results) = [] ∧
  PerformanceInsights.strengths (reflectOnPerformance results) = [].
Proof. intros results. by split_and!. Qed.

(** ** Plan validator *)

Lemma validateTask_Ok task :
  validateTask task = Ok tt ↔ accepted_task task.
Proof.
  unfold validateTask, accepted_task. split.
  - destruct task as [| | | |?|fields]; simpl; try done.
    destruct (truthy (field fields "id")) eqn:Eid; simpl; [|done].
    destruct (truthy (field fields "name")) eqn:Ename; simpl; [|done].
    destruct (truthy (field fields "type")) eqn:Etype; simpl; [|done].
    intros _. by exists fields.
  - intros (fields & -> & Hid & Hname & Htype). simpl.
    by rewrite Hid, Hname, Htype.
Qed.

Lemma validateTasks_Ok tasks :
  validateTasks tasks = Ok tt ↔ Forall accepted_task tasks.
Proof.
  induction tasks as [|task tasks IH]; simpl.
  - split; [constructor | done].
  - rewrite Forall_cons, <- IH, <- validateTask_Ok.
    destruct (validateTask task) as [[]| |]; simpl; [tauto | | ];
      split; try done; by intros [? _].
Qed.

Lemma validateTasks_chars s :
  s ≠ EmptyString → validateTasks (chars s) ≠ Ok tt.
Proof. destruct s as [|c s]; [done|]. intros _. simpl. done. Qed.

Lemma validateSubGoal_Ok subGoal :
  validateSubGoal subGoal = Ok tt ↔ accepted_subGoal subGoal.
Proof.
  unfold validateSubGoal, accepted_subGoal. split.
  - destruct subGoal as [| | | |?|fields]; simpl; try done.
    destruct (truthy (field fields "id")) eqn:Eid; simpl; [|done].
    destruct (truthy (field fields "description")) eqn:Edesc; simpl; [|done].
    destruct (field fields "tasks") as [tasks|] eqn:Etasks; simpl; [|done].
    destruct tasks as [|b|n|s|tasks|?]; simpl; try done.
    + by destruct b.
    + by destruct (JsNum.truthy n).
    + destruct (String.eqb_spec s EmptyString) as [->|Hne]; simpl; [done|].
      intros H. by apply validateTasks_chars in H.
    + intros H%validateTasks_Ok. by exists fields, tasks.
  - intros (fields & tasks & -> & Hid & Hdesc & Htasks & Hall). simpl.
    rewrite Hid, Hdesc, Htasks. simpl. by apply validateTasks_Ok.
Qed.

Lemma validateSubGoals_Ok subGoals :
  validateSubGoals subGoals = Ok tt ↔ Forall accepted_subGoal subGoals.
Proof.
  induction subGoals as [|subGoal subGoals IH]; simpl.
  - split; [constructor | done].
  - rewrite Forall_cons, <- IH, <- validateSubGoal_Ok.
    destruct (validateSubGoal subGoal) as [[]| |]; simpl; [tauto | | ];
      split; try done; by intros [? _].
Qed.

(** The loop stops at the first subgoal that fails. *)
Lemma validateSubGoals_first good bad rest :
  Forall accepted_subGoal good →
  validateSubGoals (good ++ bad :: rest) =
  let* _ := validateSubGoal bad in validateSubGoals rest.
Proof.
  induction 1 as [|subGoal good Hok _ IH]; simpl; [done|].
  apply validateSubGoal_Ok in Hok. by rewrite Hok.
Qed.

Lemma validateTasks_returns tasks : validateTasks tasks ≠ OutOfFuel.
Proof.
  induction tasks as [|task tasks IH]; simpl; [done|].
  unfold validateTask.
  destruct task as [| | | |?|fields]; simpl; try done.
  by destruct (_ || _).
Qed.

Lemma validateSubGoal_returns subGoal : validateSubGoal subGoal ≠ OutOfFuel.
Proof.
  unfold validateSubGoal.
  destruct subGoal as [| | | |?|fields]; simpl; try done.
  destruct (_ || _); [done|].
  destruct (field fields "tasks") as [[|b|n|s|tasks|?]|]; simpl; try done;
    try apply validateTasks_returns.
Qed.

Lemma validateSubGoals_returns subGoals :
  validateSubGoals subGoals ≠ OutOfFuel.
Proof.
  induction subGoals as [|subGoal subGoals IH]; simpl; [done|].
  pose proof (validateSubGoal_returns subGoal).
  by destruct (validateSubGoal subGoal).
Qed.

(** C8, as stated, fails: an empty [subGoals] list, a negative
    [estimatedDuration] and a subgoal with an empty [tasks] list are all
    accepted. *)
Lemma C8_counterexample :
  validateDecomposition (Some payload_empty_negative)
    = Ok payload_empty_negative ∧
  field [("subGoals", JArr []);
         ("estimatedDuration", JNum (JsNum.of_Z (-5)))] "subGoals"
    = Some (JArr []) ∧
  JsNum.lt (JsNum.of_Z (-5)) (JsNum.of_Z 0) = true ∧
  validateDecomposition (Some payload_empty_tasks) = Ok payload_empty_tasks.
Proof. by split_and!. Qed.

(** C8, amended.  [validateDecomposition] accepts a payload exactly when
    it parses to an object whose [subGoals] is an array (possibly
    empty), whose [estimatedDuration] is a number other than 0 and NaN
    (a negative one passes), each subgoal being an object with truthy
    [id] and [description] and an array [tasks] (possibly empty) of
    objects with truthy [id], [name] and [type]; it then returns the
    payload unchanged.  Every other payload is rejected with the
    invalid-format error, whose reason is the first failing check:
    [subGoals] before [estimatedDuration], then the subgoals in order. *)
Theorem C8_validator_accepts_exactly
    (parse_result : option json) :
  (∀ parsed,
     validateDecomposition parse_result = Ok parsed ↔
     parse_result = Some parsed ∧ accepted_payload parsed) ∧
  validateDecomposition parse_result ≠ OutOfFuel ∧
  (∀ e, validateDecomposition parse_result = Throw e →
        ∃ reason, e = InvalidPlanFormat reason) ∧
  (∀ fields,
     parse_result = Some (JObj fields) →
     truthy (field fields "subGoals") && isArray (field fields "subGoals")
       = false →
     validateDecomposition parse_result
       = Throw (InvalidPlanFormat InvalidSubGoals)) ∧
  (∀ fields subGoals,
     parse_result = Some (JObj fields) →
     field fields "subGoals" = Some (JArr subGoals) →
     truthy (field fields "estimatedDuration")
       && isNumber (field fields "estimatedDuration") = false →
     validateDecomposition parse_result
       = Throw (InvalidPlanFormat InvalidEstimatedDuration)) ∧
  (∀ fields good bad rest duration,
     parse_result = Some (JObj fields) →
     field fields "subGoals" = Some (JArr (good ++ bad :: rest)) →
     field fields "estimatedDuration" = Some (JNum duration) →
     JsNum.truthy duration = true →
     Forall accepted_subGoal good → ¬ accepted_subGoal bad →
     ∃ reason,
       validateSubGoal bad = Throw reason ∧
       validateDecomposition parse_result
         = Throw (InvalidPlanFormat reason)).
Proof.
  split_and!.
  - intros parsed. unfold validateDecomposition, accepted_payload. split.
    + destruct parse_result as [p|]; [|done].
      destruct p as [| | | |?|fields]; simpl; try done.
      destruct (field fields "subGoals") as [[| |?|?|subGoals|?]|] eqn:Esg;
        simpl; try done; try by destruct (negb _).
      destruct (field fields "estimatedDuration")
        as [[| |duration|?|?|?]|] eqn:Edur; simpl; try done;
        try by destruct (negb _).
      destruct (JsNum.truthy duration) eqn:Etr; simpl; [|done].
      destruct (validateSubGoals subGoals) as [[]| |] eqn:Eall; simpl;
        [|done|done].
      intros [= <-]. split; [done|].
      exists fields, subGoals, duration.
      by rewrite <- validateSubGoals_Ok.
    + intros [-> (fields & subGoals & duration & -> & Hsg & Hdur & Htr & Hall)].
      simpl. rewrite Hsg, Hdur. simpl. rewrite Htr. simpl.
      apply validateSubGoals_Ok in Hall. by rewrite Hall.
  - unfold validateDecomposition.
    destruct parse_result as [p|]; [|done].
    destruct p as [| | | |?|fields]; simpl; try done.
    destruct (_ || _); [done|].
    destruct (_ || _); [done|].
    destruct (field fields "subGoals") as [[| |?|s|subGoals|?]|]; simpl;
      try done.
    + pose proof (validateSubGoals_returns (chars s)).
      by destruct (validateSubGoals (chars s)).
    + pose proof (validateSubGoals_returns subGoals).
      by destruct (validateSubGoals subGoals).
  - intros e. unfold validateDecomposition, rethrow.
    destruct (match parse_result with Some _ => _ | None => _ end)
      as [?|e'|]; [done| |done].
    intros [= <-]. by exists e'.
  - intros fields -> Hbad. unfold validateDecomposition, get. cbn [bind].
    destruct (truthy (field fields "subGoals")),
             (isArray (field fields "subGoals")); done.
  - intros fields subGoals -> Hsg Hbad.
    unfold validateDecomposition, get. cbn [bind]. rewrite Hsg.
    cbn [truthy isArray negb orb].
    destruct (truthy (field fields "estimatedDuration")),
             (isNumber (field fields "estimatedDuration")); done.
  - intros fields good bad rest duration -> Hsg Hdur Htr Hgood Hbad.
    pose proof (validateSubGoal_returns bad) as Hret.
    destruct (validateSubGoal bad) as [[]|reason|] eqn:E;
      [by apply validateSubGoal_Ok in E | | done].
    exists reason. split; [done|].
    unfold validateDecomposition. simpl. rewrite Hsg, Hdur. simpl.
    rewrite Htr. simpl.
    by rewrite (validateSubGoals_first _ _ _ Hgood), E.
Qed.

Lemma C8_witness :
  validateDecomposition (Some payload_valid) = Ok payload_valid ∧
  accepted_payload payload_valid.
Proof.
  assert (validateDecomposition (Some payload_valid) = Ok payload_valid)
    as Hok by reflexivity.
  split; [exact Hok|].
  exact (proj2 (proj1 (proj1 (C8_validator_accepts_exactly
                                (Some payload_valid)) payload_valid) Hok)).
Defined.


(* ===================================================================== *)
(** * Further properties of the engine *)
(* ===================================================================== *)

(** ** Parallel groups *)

(** X1.  In every group that [identifyParallelGroups] returns, each
    member after the first has no dependency edge to or from the first
    member, the task that opened the group. *)
Theorem X1_members_independent_of_group_opener
    (tasks : list Task.t) (g : DepGraph) :
  Forall
    (fun group =>
       match group with
       | [] => True
       | opener :: members =>
           Forall (fun y => ¬ edge g opener y ∧ ¬ edge g y opener) members
       end)
    (identifyParallelGroups tasks g).
Proof.
  eapply Forall_impl; [apply identifyParallelGroups_starter_independent|].
  intros [|opener members]; simpl; [done|].
  intros H. eapply Forall_impl; [exact H|].
  intros y. by rewrite canRunInParallel_true.
Qed.

Lemma collect_group_spec g x others group processed :
  ∃ added,
    fst (collect_group g x others group processed) = group ++ added ∧
    NoDup added ∧
    (∀ y, y ∈ added → (y ∉ processed) ∧ y ∈ Task.id <$> others) ∧
    (∀ z, z ∈ snd (collect_group g x others group processed)
          ↔ z ∈ added ∨ z ∈ processed).
Proof.
  revert group processed.
  induction others as [|other others IH]; intros group processed;
    cbn [collect_group].
  - exists []. cbn [fst snd]. rewrite app_nil_r. split_and!; [done | constructor | | ].
    + by intros y ?%elem_of_nil.
    + intros z. split; [by right | intros [?%elem_of_nil|?]; done].
  - case_bool_decide as Hin.
    { destruct (IH group processed) as (added & Hg & Hnd & Hadd & Hproc).
      exists added. split_and!; [done | done | | done].
      intros y Hy. destruct (Hadd y Hy). split; [done|].
      rewrite fmap_cons. by right. }
    destruct (canRunInParallel x (Task.id other) g).
    + destruct (IH (group ++ [Task.id other]) ({[Task.id other]} ∪ processed))
        as (added & Hg & Hnd & Hadd & Hproc).
      exists (Task.id other :: added). split_and!.
      * by rewrite Hg, <- app_assoc.
      * constructor; [|done]. intros Hy. destruct (Hadd _ Hy) as [Hnot _].
        apply Hnot, elem_of_union. left. by apply elem_of_singleton.
      * intros y [->|Hy]%elem_of_cons.
        -- split; [done | rewrite fmap_cons; by left].
        -- destruct (Hadd y Hy) as [Hnot Hid]. split.
           ++ intros Hp. apply Hnot, elem_of_union. by right.
           ++ rewrite fmap_cons. by right.
      * intros z. rewrite Hproc, elem_of_union, elem_of_singleton,
          elem_of_cons. tauto.
    + destruct (IH group processed) as (added & Hg & Hnd & Hadd & Hproc).
      exists added. split_and!; [done | done | | done].
      intros y Hy. destruct (Hadd y Hy). split; [done|].
      rewrite fmap_cons. by right.
Qed.

Lemma group_tasks_spec g all todo groups processed :
  (∀ t, t ∈ todo → t ∈ all) →
  (∀ y, y ∈ mjoin groups → y ∈ processed ∧ y ∈ Task.id <$> all) →
  NoDup (mjoin groups) →
  Forall (fun group => 1 < length group) groups →
  let result := group_tasks g all todo groups processed in
  NoDup (mjoin result) ∧
  Forall (fun group => 1 < length group) result ∧
  (∀ y, y ∈ mjoin result → y ∈ Task.id <$> all).
Proof.
  revert groups processed.
  induction todo as [|task todo IH]; intros groups processed Htodo Hmem Hnd Hlen;
    simpl.
  - split_and!; [done | done | intros y Hy; by apply Hmem].
  - assert (∀ t, t ∈ todo → t ∈ all) as Htodo'
        by (intros; apply Htodo; by right).
    case_bool_decide as Hin; [by apply IH|].
    destruct (collect_group_spec g (Task.id task) all [Task.id task]
                ({[Task.id task]} ∪ processed))
      as (added & Hgroup & Hndadd & Hadd & Hproc).
    destruct (collect_group _ _ _ _ _) as [group processed'].
    simpl in Hgroup, Hproc. subst group.
    assert (∀ y, y ∈ mjoin groups → y ∈ processed' ∧ y ∈ Task.id <$> all)
      as Hmem'.
    { intros y Hy. destruct (Hmem y Hy). split; [|done].
      apply Hproc. right. apply elem_of_union. by right. }
    case_bool_decide as Hsize; apply IH; try done.
    + intros y. rewrite join_app, elem_of_app. simpl. rewrite app_nil_r.
      intros [Hy|Hy]; [by apply Hmem'|].
      apply elem_of_cons in Hy as [->|Hy].
      * split.
        -- apply Hproc. right. apply elem_of_union. left.
           by apply elem_of_singleton.
        -- apply list_elem_of_fmap. exists task. split; [done|].
           apply Htodo. by left.
      * split; [apply Hproc; by left | by apply Hadd].
    + rewrite join_app. simpl. rewrite app_nil_r.
      apply NoDup_app. split_and!; [done | |].
      * intros y Hy [->|Hy']%elem_of_cons.
        -- by destruct (Hmem _ Hy).
        -- destruct (Hadd _ Hy') as [Hnot _]. apply Hnot.
           apply elem_of_union. right. by destruct (Hmem _ Hy).
      * constructor; [|done]. intros Hy'. destruct (Hadd _ Hy') as [Hnot _].
        apply Hnot, elem_of_union. left. by apply elem_of_singleton.
    + apply Forall_app. split; [done|]. by apply Forall_singleton.
Qed.

(** X2.  The groups of [identifyParallelGroups] have at least two
    members each, hold ids of listed tasks only, and no id occurs twice,
    neither within a group nor in two groups; so for every group at
    least two tasks of the list carry one of its ids. *)
Theorem X2_groups_are_disjoint_sets_of_task_ids
    (tasks : list Task.t) (g : DepGraph) :
  NoDup (mjoin (identifyParallelGroups tasks g)) ∧
  Forall (fun group => 1 < length group) (identifyParallelGroups tasks g) ∧
  Forall (Forall (fun y => y ∈ Task.id <$> tasks))
         (identifyParallelGroups tasks g) ∧
  Forall (fun group =>
            1 < length (filter (fun t => Task.id t ∈ group) tasks))
         (identifyParallelGroups tasks g).
Proof.
  destruct (group_tasks_spec g tasks tasks [] ∅) as (Hnd & Hlen & Hmem);
    [done | by intros y ?%elem_of_nil | constructor | constructor |].
  fold (identifyParallelGroups tasks g) in *.
  assert (Forall (Forall (fun y => y ∈ Task.id <$> tasks))
                 (identifyParallelGroups tasks g)) as Hids.
  { apply Forall_forall. intros group Hgroup.
    apply Forall_forall. intros y Hy. apply Hmem.
    apply list_elem_of_join. by exists group. }
  split_and!; [done | done | done |].
  apply Forall_forall. intros group Hgroup.
  assert (NoDup group) as Hndg.
  { clear -Hnd Hgroup. induction (identifyParallelGroups tasks g) as [|x l IH];
      [by apply elem_of_nil in Hgroup|].
    simpl in Hnd. apply NoDup_app in Hnd as (Hx & _ & Hl).
    apply elem_of_cons in Hgroup as [->|?]; auto. }
  rewrite Forall_forall in Hlen, Hids.
  specialize (Hlen group Hgroup). specialize (Hids group Hgroup).
  rewrite Forall_forall in Hids.
  destruct group as [|a [|b rest]]; simpl in Hlen; [lia | lia |].
  apply NoDup_cons in Hndg as [Hab _].
  assert (a ≠ b) as Hne by (intros ->; apply Hab; by left).
  assert (a ∈ Task.id <$> tasks) as (ta & -> & Hta)%list_elem_of_fmap
      by (apply Hids; left).
  assert (b ∈ Task.id <$> tasks) as (tb & -> & Htb)%list_elem_of_fmap
      by (apply Hids; right; left).
  assert (ta ≠ tb) as Hne' by congruence.
  assert ([ta; tb] ⊆+ filter (fun t => Task.id t ∈ Task.id ta :: Task.id tb :: rest)
                             tasks) as Hsub.
  { apply NoDup_submseteq.
    - repeat constructor; [|by intros ?%elem_of_nil].
      by intros ->%list_elem_of_singleton.
    - intros t [->|[->|?%elem_of_nil]%elem_of_cons]%elem_of_cons; [| |done];
        apply list_elem_of_filter; split; [by left|done|by right; left|done]. }
  apply submseteq_length in Hsub. simpl in Hsub. lia.
Qed.

(** ** Scheduling *)

Lemma visit_each_done g fuel st ds :
  0 < fuel →
  (∀ d, d ∈ ds → d ∈ visited st ∧ d ∉ visiting st) →
  visit_each (visit g fuel) st ds = Ok st.
Proof.
  intros Hfuel. destruct fuel as [|fuel]; [lia|].
  induction ds as [|d ds IH]; intros Hds; [done|].
  destruct (Hds d ltac:(left)) as [Hed Hing].
  cbn [visit_each visit].
  rewrite bool_decide_eq_false_2, bool_decide_eq_true_2 by done.
  cbn [bind]. apply IH. intros d' Hd'. apply Hds. by right.
Qed.

Lemma visit_ready g fuel st k :
  1 < fuel → k ∉ visited st → visiting st = ∅ →
  (∀ d, d ∈ deps_of g k → d ∈ visited st) →
  visit g fuel st k = Ok (mkDfs (order st ++ [k]) ({[k]} ∪ visited st) ∅).
Proof.
  intros Hfuel Hk Hvis Hdeps. destruct fuel as [|fuel]; [lia|].
  cbn [visit]. rewrite Hvis.
  rewrite !bool_decide_eq_false_2 by (done || apply not_elem_of_empty).
  rewrite visit_each_done; [|lia|].
  - cbn. do 2 f_equal. apply set_eq. intros z.
    rewrite elem_of_difference, elem_of_union, elem_of_singleton.
    split; [intros [[->|?%not_elem_of_empty] ?]; done|].
    by intros ?%not_elem_of_empty.
  - intros d Hd. cbn. split; [by apply Hdeps|].
    rewrite elem_of_union, elem_of_singleton.
    intros [->|?%not_elem_of_empty]; [|done]. by apply Hk, Hdeps.
Qed.

Lemma visit_keys_presorted g fuel st ks :
  length ks < fuel → visiting st = ∅ → NoDup ks →
  (∀ k, k ∈ ks → k ∉ visited st) →
  (∀ front k back, ks = front ++ k :: back →
     ∀ d, d ∈ deps_of g k → d ∈ visited st ∨ d ∈ front) →
  ∃ st', visit_keys g fuel st ks = Ok st' ∧ order st' = order st ++ ks.
Proof.
  revert st. induction ks as [|k ks IH]; intros st Hfuel Hvis Hnd Hnew Hdeps.
  - exists st. by rewrite app_nil_r.
  - apply NoDup_cons in Hnd as [Hk Hnd]. simpl in Hfuel.
    cbn [visit_keys].
    rewrite bool_decide_eq_false_2 by (apply Hnew; left).
    rewrite visit_ready; [|lia|apply Hnew; left|done|].
    2:{ intros d Hd. destruct (Hdeps [] k ks eq_refl d Hd) as [?|?%elem_of_nil];
          done. }
    cbn [bind].
    destruct (IH (mkDfs (order st ++ [k]) ({[k]} ∪ visited st) ∅))
      as (st' & Hrun & Horder); [lia | done | done | | |].
    + intros k' Hk'. cbn. rewrite elem_of_union, elem_of_singleton.
      intros [->|Hed]; [done|]. apply (Hnew k'); [by right|done].
    + intros front k' back Hsplit d Hd. cbn.
      assert (k :: ks = (k :: front) ++ k' :: back) as Hsplit'
          by (by rewrite Hsplit).
      destruct (Hdeps (k :: front) k' back Hsplit' d Hd)
        as [?|[->|?]%elem_of_cons].
      * left. apply elem_of_union. by right.
      * left. apply elem_of_union. left. by apply elem_of_singleton.
      * by right.
    + exists st'. split; [done|]. rewrite Horder. cbn.
      by rewrite <- app_assoc.
Qed.

(** X3.  A plan that already lists every task after the tasks it depends
    on is scheduled in its input order: for unique ids the
    [executionOrder] is the list of task ids as given. *)
Theorem X3_presorted_plan_keeps_input_order
    (tasks : list Task.t) (constraints : PlanningConstraints.t) :
  NoDup (Task.id <$> tasks) → presorted tasks →
  calculateExecutionOrder (buildDependencyGraph tasks) constraints
    = Ok (Task.id <$> tasks).
Proof.
  intros Hids Hsorted. unfold calculateExecutionOrder.
  rewrite (buildDependencyGraph_keys tasks Hids).
  destruct (visit_keys_presorted (buildDependencyGraph tasks)
              (dfs_fuel (buildDependencyGraph tasks)) dfs_init
              (Task.id <$> tasks)) as (st' & -> & Horder).
  - unfold dfs_fuel, graph_nodes.
    rewrite (buildDependencyGraph_keys tasks Hids), length_app. lia.
  - done.
  - done.
  - intros k _. apply not_elem_of_empty.
  - intros front k back Hsplit d Hd. right.
    apply fmap_app_inv in Hsplit as (tf & tb' & Hfront & Htb & Htasks).
    symmetry in Htb. apply fmap_cons_inv in Htb as (t & tb & Hk & _ & Htb).
    subst front k tb'.
    rewrite buildDependencyGraph_deps_of in Hd; [|done|].
    + by eapply Hsorted.
    + rewrite Htasks. apply elem_of_app. right. by left.
  - cbn [bind]. by rewrite Horder.
Qed.

Lemma X3_witness :
  NoDup (Task.id <$> tasks_ABC) ∧ presorted tasks_ABC ∧
  calculateExecutionOrder (buildDependencyGraph tasks_ABC)
    PlanningConstraints.empty = Ok (Task.id <$> tasks_ABC).
Proof.
  assert (NoDup (Task.id <$> tasks_ABC)) as Hids.
  { vm_compute. repeat constructor; intros H;
      repeat (inversion H as [|? ? ? H']; clear H; rename H' into H). }
  assert (presorted tasks_ABC) as Hsorted.
  { intros front t back Hsplit d Hd. unfold tasks_ABC in Hsplit.
    destruct front as [|a [|b [|c front]]]; simplify_eq/=;
      try (by apply elem_of_nil in Hd);
      try (apply list_elem_of_singleton in Hd as ->; by left).
    destruct front; done. }
  split; [exact Hids|]. split; [exact Hsorted|].
  exact (X3_presorted_plan_keeps_input_order tasks_ABC
           PlanningConstraints.empty Hids Hsorted).
Defined.

(** X4.  For a task list with unique ids, a returned order holds, once
    each, exactly the task ids and the ids that some task names as a
    dependency, listed or not. *)
Theorem X4_order_holds_ids_and_named_dependencies
    (tasks : list Task.t) (constraints : PlanningConstraints.t)
    (executionOrder : list string) :
  NoDup (Task.id <$> tasks) →
  calculateExecutionOrder (buildDependencyGraph tasks) constraints
    = Ok executionOrder →
  NoDup executionOrder ∧
  ∀ x, x ∈ executionOrder ↔
       x ∈ Task.id <$> tasks ∨
       ∃ t, t ∈ tasks ∧ x ∈ Task.dependencies t.
Proof.
  intros Hids (Hnd & Hkeys & Hnodes & Hdeps)%calculateExecutionOrder_Ok.
  split; [done|]. intros x. split.
  - intros [Hx|Hx]%Hnodes%elem_of_app.
    + left. by apply buildDependencyGraph_keys_elem.
    + right. apply list_elem_of_join in Hx as (ds & Hx & Hds).
      apply list_elem_of_fmap in Hds as ([k v] & -> & Hin).
      apply buildDependencyGraph_entry in Hin as (t & Ht & _ & <-).
      by exists t.
  - intros [Hx|(t & Ht & Hx)].
    + by apply Hkeys, buildDependencyGraph_keys_elem.
    + apply (precedes_elem_l x (Task.id t)). apply Hdeps.
      * apply Hkeys, buildDependencyGraph_keys_elem, list_elem_of_fmap.
        by exists t.
      * unfold edge. by rewrite buildDependencyGraph_deps_of.
Qed.

Lemma X4_witness :
  NoDup (Task.id <$> tasks_dangling) ∧
  calculateExecutionOrder (buildDependencyGraph tasks_dangling)
    PlanningConstraints.empty = Ok ["ghost"; "B"] ∧
  NoDup ["ghost"; "B"] ∧
  ∀ x, x ∈ ["ghost"; "B"] ↔
       x ∈ Task.id <$> tasks_dangling ∨
       ∃ t, t ∈ tasks_dangling ∧ x ∈ Task.dependencies t.
Proof.
  assert (NoDup (Task.id <$> tasks_dangling)) as Hids.
  { vm_compute. repeat constructor. intros H. inversion H. }
  assert (calculateExecutionOrder (buildDependencyGraph tasks_dangling)
            PlanningConstraints.empty = Ok ["ghost"; "B"]) as Hrun
      by (vm_compute; reflexivity).
  split; [exact Hids|]. split; [exact Hrun|].
  exact (X4_order_holds_ids_and_named_dependencies tasks_dangling
           PlanningConstraints.empty _ Hids Hrun).
Defined.

(** ** The dependency graph *)

Lemma uniq_from_snoc seen xs x :
  uniq_from seen (xs ++ [x]) =
  uniq_from seen xs
  ++ (if bool_decide (x ∈ seen ∨ x ∈ xs) then [] else [x]).
Proof.
  revert seen. induction xs as [|y xs IH]; intros seen; cbn [uniq_from app].
  - case_bool_decide as H1; case_bool_decide as H2; try done.
    + destruct H2. by left.
    + destruct H2 as [?|?%elem_of_nil]; done.
  - case_bool_decide as Hy.
    + rewrite IH. f_equal.
      rewrite (bool_decide_ext _ (x ∈ seen ∨ x ∈ y :: xs)); [done|].
      rewrite elem_of_cons. split; [tauto|].
      intros [?|[->|?]]; tauto.
    + cbn [app]. rewrite IH. do 2 f_equal.
      rewrite (bool_decide_ext _ (x ∈ seen ∨ x ∈ y :: xs)); [done|].
      rewrite elem_of_cons, elem_of_union, elem_of_singleton. tauto.
Qed.

Lemma uniq_from_elem seen xs x :
  x ∈ uniq_from seen xs ↔ x ∈ xs ∧ x ∉ seen.
Proof.
  revert seen. induction xs as [|y xs IH]; intros seen; cbn [uniq_from].
  - split; [by intros ?%elem_of_nil | by intros [?%elem_of_nil _]].
  - case_bool_decide as Hy.
    + rewrite IH, elem_of_cons. split; [tauto|].
      intros [[->|?] ?]; done.
    + rewrite !elem_of_cons, IH, elem_of_union, elem_of_singleton.
      split; [intros [->|[? ?]]; tauto|].
      intros [[->|?] ?]; [by left|].
      destruct (decide (x = y)); [by left | right; tauto].
Qed.

Lemma buildDependencyGraph_keys_uniq tasks :
  graph_keys (buildDependencyGraph tasks) = uniq (Task.id <$> tasks).
Proof.
  induction tasks as [|t tasks IH] using rev_ind; [done|].
  rewrite buildDependencyGraph_snoc, graph_set_keys, fmap_app.
  cbn [fmap list_fmap]. unfold uniq in *. rewrite uniq_from_snoc, IH.
  case_bool_decide as H1; case_bool_decide as H2; try done.
  - by rewrite app_nil_r.
  - destruct H2. right. apply uniq_from_elem in H1. tauto.
  - destruct H1. apply uniq_from_elem. split; [|apply not_elem_of_empty].
    by destruct H2 as [?%not_elem_of_empty|?].
Qed.

Lemma graph_get_later_sets g (later : list Task.t) k :
  k ∉ Task.id <$> later →
  graph_get
    (fold_left (fun graph task =>
                  graph_set graph (Task.id task) (Task.dependencies task))
               later g) k
  = graph_get g k.
Proof.
  revert g. induction later as [|t later IH]; intros g Hk; [done|].
  rewrite fmap_cons in Hk. apply not_elem_of_cons in Hk as [Hne Hk].
  cbn [fold_left]. rewrite IH by done. rewrite graph_get_set.
  by destruct (String.eqb_spec k (Task.id t)).
Qed.

(** X5.  [buildDependencyGraph] keeps one entry per task id: the keys
    are the ids in plan order with later repetitions dropped, and the
    dependencies recorded for an id are those of the last task carrying
    it, which replace the ones of any earlier task of the same id. *)
Theorem X5_graph_keeps_last_task_of_an_id
    (front back : list Task.t) (t : Task.t) :
  Task.id t ∉ Task.id <$> back →
  graph_keys (buildDependencyGraph (front ++ t :: back))
    = uniq (Task.id <$> front ++ t :: back) ∧
  NoDup (graph_keys (buildDependencyGraph (front ++ t :: back))) ∧
  graph_get (buildDependencyGraph (front ++ t :: back)) (Task.id t)
    = Some (Task.dependencies t).
Proof.
  intros Hlast. split_and!.
  - apply buildDependencyGraph_keys_uniq.
  - apply buildDependencyGraph_keys_NoDup.
  - unfold buildDependencyGraph. rewrite fold_left_app. cbn [fold_left].
    rewrite graph_get_later_sets by done.
    by rewrite graph_get_set, String.eqb_refl.
Qed.

Lemma X5_witness :
  (Task.id (sample_task "A" 5 [])
     ∉ Task.id <$> [sample_task "B" 20 []]) ∧
  graph_keys (buildDependencyGraph
                ([sample_task "A" 10 ["B"]]
                 ++ sample_task "A" 5 [] :: [sample_task "B" 20 []]))
    = ["A"; "B"] ∧
  graph_get (buildDependencyGraph
               ([sample_task "A" 10 ["B"]]
                ++ sample_task "A" 5 [] :: [sample_task "B" 20 []])) "A"
    = Some [].
Proof.
  assert (Task.id (sample_task "A" 5 [])
            ∉ Task.id <$> [sample_task "B" 20 []]) as Hlast.
  { vm_compute. intros H. inversion H as [|? ? ? H']. inversion H'. }
  destruct (X5_graph_keeps_last_task_of_an_id
              [sample_task "A" 10 ["B"]] [sample_task "B" 20 []]
              (sample_task "A" 5 []) Hlast) as (Hkeys & _ & Hget).
  split; [exact Hlast|]. split; [|exact Hget].
  rewrite Hkeys. vm_compute. reflexivity.
Defined.

(** ** Resources, checkpoints and fallbacks of a created plan *)






Lemma critical_checkpoints_env env criticalTasks :
  let '(cps, env') := critical_checkpoints env criticalTasks in
  ExecutionCheckpoint.id <$> cps
    = uuid_source env <$> seq (uuid_next env) (length criticalTasks) ∧
  length cps = length criticalTasks ∧
  env' = mkEnv (uuid_source env) (uuid_next env + length criticalTasks)
               (now env).
Proof.
  revert env. induction criticalTasks as [|t ts IH]; intros env.
  - cbn. split_and!; [done | done |]. destruct env. cbn. f_equal. lia.
  - cbn [critical_checkpoints uuidv4].
    specialize (IH (mkEnv (uuid_source env) (S (uuid_next env)) (now env))).
    destruct (critical_checkpoints _ ts) as [cps env2].
    destruct IH as (Hids & Hlen & ->). cbn in *.
    split_and!; [by rewrite Hids | by rewrite Hlen | f_equal; lia].
Qed.

Lemma createCheckpoints_env
    (env : Env) (tasks : list Task.t) (executionOrder : list string) :
  let checkpoints := fst (createCheckpoints env tasks executionOrder) in
  let env' := snd (createCheckpoints env tasks executionOrder) in
  length checkpoints
    = length (filter (fun t => Task.priority t = critical) tasks)
      + (if bool_decide (2 < length executionOrder) then 1 else 0) ∧
  ExecutionCheckpoint.id <$> checkpoints
    = uuid_source env <$> seq (uuid_next env) (length checkpoints) ∧
  env' = mkEnv (uuid_source env) (uuid_next env + length checkpoints)
               (now env).
Proof.
  unfold createCheckpoints.
  pose proof (critical_checkpoints_env env
                (filter (fun t => Task.priority t = critical) tasks)) as H.
  destruct (critical_checkpoints env _) as [cps env1].
  destruct H as (Hids & Hlen & ->).
  case_bool_decide as Hlong; cbn [fst snd].
  - destruct (lookup_lt_is_Some_2 executionOrder (length executionOrder / 2))
      as [mid Hmid].
    { apply Nat.div_lt; lia. }
    rewrite Hmid. cbn [uuidv4 fst snd uuid_source uuid_next now].
    rewrite length_app, fmap_app, Hlen. cbn [length].
    split_and!; [done | | f_equal; lia].
    rewrite seq_app, fmap_app, Hids. cbn. done.
  - rewrite Hlen, Nat.add_0_r. by split_and!.
Qed.

(** X7.  [createCheckpoints] makes one checkpoint per critical task and
    one more when the execution order has more than two entries; their
    ids are consecutive draws of [uuidv4], and the environment has
    advanced by exactly that many draws. *)
Theorem X7_checkpoints_use_consecutive_uuids
    (env : Env) (tasks : list Task.t) (executionOrder : list string) :
  let checkpoints := fst (createCheckpoints env tasks executionOrder) in
  let env' := snd (createCheckpoints env tasks executionOrder) in
  length checkpoints
    = length (filter (fun t => Task.priority t = critical) tasks)
      + (if bool_decide (2 < length executionOrder) then 1 else 0) ∧
  ExecutionCheckpoint.id <$> checkpoints
    = uuid_source env <$> seq (uuid_next env) (length checkpoints) ∧
  env' = mkEnv (uuid_source env) (uuid_next env + length checkpoints)
               (now env).
Proof. apply createCheckpoints_env. Qed.

(** X8.  When the execution order has more than two entries, the last
    checkpoint is the progress review at the middle entry,
    executionOrder[⌊n/2⌋], which exists; the checkpoints before it are
    the pauses of the critical tasks, in plan order. *)
Theorem X8_midpoint_checkpoint
    (env : Env) (tasks : list Task.t) (executionOrder : list string) :
  2 < length executionOrder →
  ∃ midTask,
    executionOrder !! (length executionOrder / 2) = Some midTask ∧
    checkpoint_shape <$> fst (createCheckpoints env tasks executionOrder)
    = ((fun t => (Task.id t, "task_completion", cp_pause))
         <$> filter (fun t => Task.priority t = critical) tasks)
      ++ [(midTask, "progress_review", cp_continue)].
Proof.
  intros Hlong.
  destruct (lookup_lt_is_Some_2 executionOrder (length executionOrder / 2))
    as [mid Hmid].
  { apply Nat.div_lt; lia. }
  exists mid. split; [done|]. unfold createCheckpoints.
  pose proof (critical_checkpoints_shape env
                (filter (fun t => Task.priority t = critical) tasks)) as H.
  destruct (critical_checkpoints env _) as [cps env1]. cbn [fst] in H.
  rewrite bool_decide_eq_true_2 by done. rewrite Hmid.
  cbn [uuidv4 fst]. by rewrite fmap_app, H.
Qed.

Lemma X8_witness :
  2 < length ["A"; "B"; "C"] ∧
  ∃ midTask,
    ["A"; "B"; "C"] !! (length ["A"; "B"; "C"] / 2) = Some midTask ∧
    checkpoint_shape
      <$> fst (createCheckpoints sample_env tasks_ABC ["A"; "B"; "C"])
    = ((fun t => (Task.id t, "task_completion", cp_pause))
         <$> filter (fun t => Task.priority t = critical) tasks_ABC)
      ++ [(midTask, "progress_review", cp_continue)].
Proof.
  assert (2 < length ["A"; "B"; "C"]) as Hlong by (simpl; lia).
  split; [exact Hlong|].
  exact (X8_midpoint_checkpoint sample_env tasks_ABC ["A"; "B"; "C"] Hlong).
Defined.

Lemma createExecutionPlan_ids env tasks c plan env' :
  createExecutionPlan env tasks c = Ok (plan, env') →
  let checkpoints := ExecutionPlan.checkpoints plan in
  calculateExecutionOrder (buildDependencyGraph tasks) c
    = Ok (ExecutionPlan.executionOrder plan) ∧
  checkpoints
    = fst (createCheckpoints env tasks (ExecutionPlan.executionOrder plan)) ∧
  ExecutionPlan.id plan
    = uuid_source env (uuid_next env + length checkpoints) ∧
  TaskPlan.goalId (ExecutionPlan.taskPlan plan)
    = uuid_source env (uuid_next env + length checkpoints + 1) ∧
  env' = mkEnv (uuid_source env) (uuid_next env + length checkpoints + 2)
               (now env) ∧
  ExecutionPlan.taskPlan plan
    = TaskPlan.mk (TaskPlan.goalId (ExecutionPlan.taskPlan plan))
        "Generated from tasks" [] [] (ExecutionPlan.estimatedDuration plan)
        (uniq (mjoin (Task.requiredCapabilities <$> tasks)))
        (uniq (mjoin (Task.successCriteria <$> tasks)))
        (now env) 1 ∧
  ExecutionPlan.fallbackStrategies plan = defineFallbackStrategies tasks.
Proof.
  unfold createExecutionPlan.
  destruct (calculateExecutionOrder _ c) as [l|cause|] eqn:E; cbn [bind];
    [|done|done].
  destruct (createCheckpoints_env env tasks l) as (_ & _ & Henv).
  destruct (createCheckpoints env tasks l) as [cps env1] eqn:Ecp.
  destruct (calculateEstimates _ _) as [duration cost].
  cbn in Henv. subst env1. cbn. intros [= <- <-]. cbn.
  split_and!; try done; [by rewrite Ecp | f_equal; lia | f_equal; lia].
Qed.

Lemma sample_env_uuids_distinct : uuids_distinct sample_env.
Proof.
  intros i j H. cbn in H.
  by apply (inj (String.app "uuid-")), (inj pretty) in H.
Qed.

(** X9.  As long as [uuidv4] does not repeat itself, the ids generated
    for one plan are pairwise different: the plan id, the goal id of its
    task plan and the ids of its checkpoints; building the plan draws
    exactly two uuids more than it has checkpoints. *)
Theorem X9_generated_ids_are_distinct
    (env env' : Env) (tasks : list Task.t)
    (constraints : PlanningConstraints.t) (plan : ExecutionPlan.t) :
  uuids_distinct env →
  createExecutionPlan env tasks constraints = Ok (plan, env') →
  NoDup (ExecutionPlan.id plan
           :: TaskPlan.goalId (ExecutionPlan.taskPlan plan)
           :: (ExecutionCheckpoint.id <$> ExecutionPlan.checkpoints plan)) ∧
  uuid_next env'
    = uuid_next env + length (ExecutionPlan.checkpoints plan) + 2.
Proof.
  intros Hinj (_ & Hcps & Hid & Hgoal & -> & _)%createExecutionPlan_ids.
  split; [|done].
  pose proof (createCheckpoints_env env tasks
                (ExecutionPlan.executionOrder plan)) as (_ & Hids & _).
  rewrite <- Hcps in Hids. rewrite Hid, Hgoal, Hids.
  set (n := uuid_next env). set (k := length (ExecutionPlan.checkpoints plan)).
  change (NoDup (uuid_source env <$> (n + k) :: (n + k + 1) :: seq n k)).
  apply NoDup_fmap_2_strong; [intros x y _ _; apply Hinj|].
  repeat constructor.
  - rewrite elem_of_cons, elem_of_seq. lia.
  - rewrite elem_of_seq. lia.
  - apply NoDup_seq.
Qed.

Lemma X9_witness :
  uuids_distinct sample_env ∧
  ∃ plan env',
    createExecutionPlan sample_env tasks_ABC PlanningConstraints.empty
      = Ok (plan, env') ∧
    NoDup (ExecutionPlan.id plan
             :: TaskPlan.goalId (ExecutionPlan.taskPlan plan)
             :: (ExecutionCheckpoint.id <$> ExecutionPlan.checkpoints plan)) ∧
    uuid_next env'
      = uuid_next sample_env + length (ExecutionPlan.checkpoints plan) + 2.
Proof.
  split; [exact sample_env_uuids_distinct|].
  assert (∃ plan env',
            createExecutionPlan sample_env tasks_ABC PlanningConstraints.empty
              = Ok (plan, env')) as (plan & env' & Hplan)
      by (eexists _, _; vm_compute; reflexivity).
  exists plan, env'. split; [exact Hplan|].
  exact (X9_generated_ids_are_distinct sample_env env' tasks_ABC
           PlanningConstraints.empty plan sample_env_uuids_distinct Hplan).
Defined.

Lemma createCheckpoints_pauses env tasks executionOrder x :
  (∃ cp, cp ∈ fst (createCheckpoints env tasks executionOrder) ∧
         ExecutionCheckpoint.taskId cp = x ∧
         ExecutionCheckpoint.action cp = cp_pause)
  ↔ ∃ t, t ∈ tasks ∧ Task.id t = x ∧ Task.priority t = critical.
Proof.
  assert (∀ cps : list ExecutionCheckpoint.t,
            (∃ cp, cp ∈ cps ∧ ExecutionCheckpoint.taskId cp = x ∧
                   ExecutionCheckpoint.action cp = cp_pause)
            ↔ ∃ s, s ∈ checkpoint_shape <$> cps ∧ s.1.1 = x ∧ s.2 = cp_pause)
    as Hshape.
  { intros cps. split.
    - intros (cp & Hin & Hx & Ha). exists (checkpoint_shape cp).
      split; [|done]. apply list_elem_of_fmap. by exists cp.
    - intros (s & (cp & -> & Hin)%list_elem_of_fmap & Hx & Ha).
      by exists cp. }
  rewrite Hshape. clear Hshape.
  assert (∃ extra,
            checkpoint_shape <$> fst (createCheckpoints env tasks executionOrder)
            = ((fun t => (Task.id t, "task_completion", cp_pause))
                 <$> filter (fun t => Task.priority t = critical) tasks)
              ++ extra ∧
            Forall (fun s => s.2 = cp_continue) extra) as (extra & -> & Hextra).
  { unfold createCheckpoints.
    pose proof (critical_checkpoints_shape env
                  (filter (fun t => Task.priority t = critical) tasks)) as H.
    destruct (critical_checkpoints env _) as [cps env1]. cbn [fst] in H.
    case_bool_decide; [destruct (executionOrder !! _) as [mid|]|]; cbn [fst].
    - cbn [uuidv4 fst]. rewrite fmap_app, H. eexists. split; [done|].
      by repeat constructor.
    - exists []. by rewrite app_nil_r, H.
    - exists []. by rewrite app_nil_r, H. }
  split.
  - intros (s & [Hs|Hs]%elem_of_app & Hx & Ha).
    + apply list_elem_of_fmap in Hs as (t & -> & [Hcrit Ht]%list_elem_of_filter).
      by exists t.
    + rewrite Forall_forall in Hextra. specialize (Hextra s Hs). congruence.
  - intros (t & Ht & Hx & Hcrit).
    exists (Task.id t, "task_completion", cp_pause). split; [|done].
    apply elem_of_app. left. apply list_elem_of_fmap. exists t.
    split; [done|]. by apply list_elem_of_filter.
Qed.

(** X10.  In a created plan every task has exactly one fallback
    strategy, in plan order, triggered by its failure: human
    intervention for a critical task and a retry for any other; and the
    tasks with a pause checkpoint are exactly the critical ones. *)
Theorem X10_critical_tasks_pause_and_escalate
    (env env' : Env) (tasks : list Task.t)
    (constraints : PlanningConstraints.t) (plan : ExecutionPlan.t) :
  createExecutionPlan env tasks constraints = Ok (plan, env') →
  Forall2
    (fun t strategy =>
       FallbackStrategy.triggerId strategy = Task.id t ∧
       FallbackStrategy.condition strategy = "task_failure" ∧
       FallbackStrategy.action strategy
         = match Task.priority t with
           | critical => human_intervention
           | _ => retry
           end)
    tasks (ExecutionPlan.fallbackStrategies plan) ∧
  ∀ x,
    (∃ cp, cp ∈ ExecutionPlan.checkpoints plan ∧
           ExecutionCheckpoint.taskId cp = x ∧
           ExecutionCheckpoint.action cp = cp_pause)
    ↔ ∃ t, t ∈ tasks ∧ Task.id t = x ∧ Task.priority t = critical.
Proof.
  intros (_ & Hcps & _ & _ & _ & _ & Hfb)%createExecutionPlan_ids. split.
  - rewrite Hfb. unfold defineFallbackStrategies.
    apply Forall2_fmap_r, Forall_Forall2_diag, Forall_forall.
    intros t _. unfold compose.
    destruct (decide (Task.priority t = critical)) as [->|Hne];
      cbn; [done|].
    by destruct (Task.priority t).
  - intros x. rewrite Hcps. apply createCheckpoints_pauses.
Qed.

Lemma X10_witness :
  ∃ plan env',
    createExecutionPlan sample_env tasks_ABC PlanningConstraints.empty
      = Ok (plan, env') ∧
    Forall2
      (fun t strategy =>
         FallbackStrategy.triggerId strategy = Task.id t ∧
         FallbackStrategy.condition strategy = "task_failure" ∧
         FallbackStrategy.action strategy
           = match Task.priority t with
             | critical => human_intervention
             | _ => retry
             end)
      tasks_ABC (ExecutionPlan.fallbackStrategies plan).
Proof.
  assert (∃ plan env',
            createExecutionPlan sample_env tasks_ABC PlanningConstraints.empty
              = Ok (plan, env')) as (plan & env' & Hplan)
      by (eexists _, _; vm_compute; reflexivity).
  exists plan, env'. split; [exact Hplan|].
  exact (proj1 (X10_critical_tasks_pause_and_escalate sample_env env'
                  tasks_ABC PlanningConstraints.empty plan Hplan)).
Defined.

Lemma uniq_from_NoDup seen xs :
  NoDup (uniq_from seen xs).
Proof.
  revert seen. induction xs as [|x xs IH]; intros seen; cbn [uniq_from].
  - constructor.
  - case_bool_decide; [apply IH|]. constructor; [|apply IH].
    rewrite uniq_from_elem, elem_of_union, elem_of_singleton. tauto.
Qed.

(** X11.  The task plan inside a created execution plan has version 1,
    the plan's estimated duration, no subgoals and no dependency
    records, whatever dependencies the tasks declare; its
    [requiredCapabilities] and [successCriteria] list, once each, what
    the tasks list. *)
Theorem X11_task_plan_of_created_plan
    (env env' : Env) (tasks : list Task.t)
    (constraints : PlanningConstraints.t) (plan : ExecutionPlan.t) :
  createExecutionPlan env tasks constraints = Ok (plan, env') →
  let taskPlan := ExecutionPlan.taskPlan plan in
  TaskPlan.version taskPlan = 1 ∧
  TaskPlan.subGoals taskPlan = [] ∧
  TaskPlan.dependencies taskPlan = [] ∧
  TaskPlan.estimatedDuration taskPlan = ExecutionPlan.estimatedDuration plan ∧
  NoDup (TaskPlan.requiredCapabilities taskPlan) ∧
  (∀ cap, cap ∈ TaskPlan.requiredCapabilities taskPlan
          ↔ ∃ t, t ∈ tasks ∧ cap ∈ Task.requiredCapabilities t) ∧
  NoDup (TaskPlan.successCriteria taskPlan) ∧
  (∀ crit, crit ∈ TaskPlan.successCriteria taskPlan
           ↔ ∃ t, t ∈ tasks ∧ crit ∈ Task.successCriteria t).
Proof.
  intros (_ & _ & _ & _ & _ & Htp & _)%createExecutionPlan_ids.
  cbn. rewrite Htp. cbn.
  assert (∀ (f : Task.t → list string) x,
            x ∈ uniq (mjoin (f <$> tasks)) ↔ ∃ t, t ∈ tasks ∧ x ∈ f t)
    as Huniq.
  { intros f x. unfold uniq. rewrite uniq_from_elem, list_elem_of_join.
    split.
    - intros [(l & Hx & (t & -> & Ht)%list_elem_of_fmap) _]. by exists t.
    - intros (t & Ht & Hx). split; [|apply not_elem_of_empty].
      exists (f t). split; [done|]. apply list_elem_of_fmap. by exists t. }
  split_and!; try done; try apply uniq_from_NoDup; intros ?; apply Huniq.
Qed.

Lemma X11_witness :
  ∃ plan env',
    createExecutionPlan sample_env tasks_ABC PlanningConstraints.empty
      = Ok (plan, env') ∧
    TaskPlan.version (ExecutionPlan.taskPlan plan) = 1 ∧
    TaskPlan.dependencies (ExecutionPlan.taskPlan plan) = [].
Proof.
  assert (∃ plan env',
            createExecutionPlan sample_env tasks_ABC PlanningConstraints.empty
              = Ok (plan, env')) as (plan & env' & Hplan)
      by (eexists _, _; vm_compute; reflexivity).
  exists plan, env'. split; [exact Hplan|].
  destruct (X11_task_plan_of_created_plan sample_env env' tasks_ABC
              PlanningConstraints.empty plan Hplan) as (Hv & _ & Hd & _).
  split; [exact Hv | exact Hd].
Defined.

(** ** Adapting a plan *)

Lemma indexOf_absent l x : x ∉ l → indexOf l x = (-1)%Z.
Proof.
  induction l as [|y l IH]; [done|].
  intros [Hne Hl]%not_elem_of_cons. cbn [indexOf].
  destruct (String.eqb_spec y x) as [->|_]; [done|].
  by rewrite IH.
Qed.

Lemma indexOf_first l1 l2 x :
  x ∉ l1 → indexOf (l1 ++ x :: l2) x = Z.of_nat (length l1).
Proof.
  induction l1 as [|y l1 IH]; cbn [indexOf app length].
  - by rewrite String.eqb_refl.
  - intros [Hne Hl]%not_elem_of_cons.
    destruct (String.eqb_spec y x) as [->|_]; [done|].
    rewrite IH by done.
    destruct (Z.ltb_spec (Z.of_nat (length l1)) 0); lia.
Qed.

Lemma move_to_end_present l1 l2 x :
  x ∉ l1 → move_to_end (l1 ++ x :: l2) x = l1 ++ l2 ++ [x].
Proof.
  intros Hx. unfold move_to_end. rewrite indexOf_first by done.
  destruct (Z.ltb_spec (-1) (Z.of_nat (length l1))); [|lia].
  by rewrite Nat2Z.id, delete_middle, <- app_assoc.
Qed.

Lemma move_to_end_absent l x : x ∉ l → move_to_end l x = l.
Proof. intros Hx. unfold move_to_end. by rewrite indexOf_absent. Qed.

Lemma adaptPlan_order env P fb :
  ExecutionPlan.executionOrder (fst (adaptPlan env P fb)) =
  match ExecutionFeedback.status fb with
  | failed => filter (fun y => y ≠ ExecutionFeedback.taskId fb)
                     (ExecutionPlan.executionOrder P)
  | blocked => move_to_end (ExecutionPlan.executionOrder P)
                           (ExecutionFeedback.taskId fb)
  | _ => ExecutionPlan.executionOrder P
  end.
Proof.
  unfold adaptPlan, analyzeFeedbackImpact, determineAdaptationStrategy,
    applyAdaptations, recalculateEstimates.
  destruct (ExecutionFeedback.status fb); cbn; try done.
  apply filter_neqb.
Qed.

(** X12.  On feedback [blocked] for a task of the plan, [adaptPlan]
    moves the first occurrence of that task to the end of the
    [executionOrder] and leaves the other entries in their order; the
    result is a permutation of the old order.  The array is shared with
    the plan passed in, whose [executionOrder] is reordered as well. *)
Theorem X12_blocked_task_moves_to_the_end
    (env : Env) (P : ExecutionPlan.t) (fb : ExecutionFeedback.t)
    (before after : list string) :
  ExecutionFeedback.status fb = blocked →
  ExecutionPlan.executionOrder P
    = before ++ ExecutionFeedback.taskId fb :: after →
  ExecutionFeedback.taskId fb ∉ before →
  ExecutionPlan.executionOrder (fst (adaptPlan env P fb))
    = before ++ after ++ [ExecutionFeedback.taskId fb] ∧
  ExecutionPlan.executionOrder (fst (adaptPlan env P fb))
    ≡ₚ ExecutionPlan.executionOrder P ∧
  ExecutionPlan.executionOrder (currentPlan_after_adaptPlan P fb)
    = before ++ after ++ [ExecutionFeedback.taskId fb].
Proof.
  intros Hst Horder Hfirst.
  assert (ExecutionPlan.executionOrder (fst (adaptPlan env P fb))
          = before ++ after ++ [ExecutionFeedback.taskId fb]) as Hnew.
  { rewrite adaptPlan_order, Hst, Horder. by apply move_to_end_present. }
  split_and!; [done | |].
  - rewrite Hnew, Horder. apply Permutation_app_head.
    by rewrite <- Permutation_cons_append.
  - unfold currentPlan_after_adaptPlan, analyzeFeedbackImpact,
      determineAdaptationStrategy, applyAdaptations.
    rewrite Hst. cbn. rewrite Horder. by apply move_to_end_present.
Qed.

Lemma X12_witness :
  ExecutionFeedback.status (feedback_X blocked) = blocked ∧
  ExecutionPlan.executionOrder plan_XY
    = [] ++ ExecutionFeedback.taskId (feedback_X blocked) :: ["Y"] ∧
  (ExecutionFeedback.taskId (feedback_X blocked) ∉ []) ∧
  ExecutionPlan.executionOrder
    (fst (adaptPlan sample_env plan_XY (feedback_X blocked))) = ["Y"; "X"].
Proof.
  assert (ExecutionFeedback.status (feedback_X blocked) = blocked) as Hst
      by reflexivity.
  assert (ExecutionPlan.executionOrder plan_XY
          = [] ++ ExecutionFeedback.taskId (feedback_X blocked) :: ["Y"])
    as Horder by reflexivity.
  assert (ExecutionFeedback.taskId (feedback_X blocked) ∉ []) as Hfirst
      by apply not_elem_of_nil.
  split; [exact Hst|]. split; [exact Horder|]. split; [exact Hfirst|].
  exact (proj1 (X12_blocked_task_moves_to_the_end sample_env plan_XY
                  (feedback_X blocked) [] ["Y"] Hst Horder Hfirst)).
Defined.

Lemma filter_absent (x : string) (l : list string) :
  x ∉ l → filter (fun y => y ≠ x) l = l.
Proof.
  induction l as [|y l IH]; [done|].
  intros [Hne Hl]%not_elem_of_cons.
  rewrite filter_cons_True by done. by rewrite IH.
Qed.

Lemma indexOf_present l x : x ∈ l → (0 ≤ indexOf l x)%Z.
Proof.
  induction l as [|y l IH]; [by intros ?%elem_of_nil|].
  cbn [indexOf]. destruct (String.eqb_spec y x) as [->|Hne]; [lia|].
  intros [->|Hin]%elem_of_cons; [done|]. specialize (IH Hin).
  destruct (Z.ltb_spec (indexOf l x) 0); lia.
Qed.

Lemma indexOf_app_l l1 l x : x ∈ l1 → indexOf (l1 ++ l) x = indexOf l1 x.
Proof.
  induction l1 as [|y l1 IH]; [by intros ?%elem_of_nil|].
  cbn [indexOf app]. destruct (String.eqb_spec y x) as [->|Hne]; [done|].
  intros [->|Hin]%elem_of_cons; [done|]. by rewrite IH.
Qed.

Lemma indexOf_app_r l1 l x :
  x ∉ l1 → x ∈ l → (Z.of_nat (length l1) ≤ indexOf (l1 ++ l) x)%Z.
Proof.
  intros Hx Hin. induction l1 as [|y l1 IH]; cbn [indexOf app length].
  - by apply indexOf_present.
  - apply not_elem_of_cons in Hx as [Hne Hx]. specialize (IH Hx).
    destruct (String.eqb_spec y x) as [->|_]; [done|].
    destruct (Z.ltb_spec (indexOf (l1 ++ l) x) 0); lia.
Qed.

Lemma filter_all (f : string → bool) l :
  (∀ y, y ∈ l → f y = true) → List.filter f l = l.
Proof.
  induction l as [|y l IH]; [done|]. intros H. cbn.
  rewrite (H y) by left. f_equal. apply IH. intros; apply H. by right.
Qed.

Lemma filter_none (f : string → bool) l :
  (∀ y, y ∈ l → f y = false) → List.filter f l = [].
Proof.
  induction l as [|y l IH]; [done|]. intros H. cbn.
  rewrite (H y) by left. apply IH. intros; apply H. by right.
Qed.

(** X13.  Feedback [failed] or [blocked] about a task id that the plan
    does not schedule leaves the [executionOrder] as it was, and the
    impact analysis counts every scheduled task as affected. *)
Theorem X13_feedback_on_unknown_task
    (env : Env) (P : ExecutionPlan.t) (fb : ExecutionFeedback.t) :
  ExecutionFeedback.taskId fb ∉ ExecutionPlan.executionOrder P →
  ExecutionPlan.executionOrder (fst (adaptPlan env P fb))
    = ExecutionPlan.executionOrder P ∧
  affectedTasks (analyzeFeedbackImpact P fb)
    = ExecutionPlan.executionOrder P.
Proof.
  intros Hx. split.
  - rewrite adaptPlan_order. destruct (ExecutionFeedback.status fb); try done.
    + by apply filter_absent.
    + by apply move_to_end_absent.
  - cbn. unfold findAffectedTasks. rewrite indexOf_absent by done.
    apply filter_all. intros y Hy. apply indexOf_present in Hy.
    apply Z.ltb_lt. lia.
Qed.

Lemma X13_witness :
  (ExecutionFeedback.taskId
     (ExecutionFeedback.mk "Z" failed (JsNum.of_Z 10) (lit 5 100) (lit 1 2)
        [] [])
     ∉ ExecutionPlan.executionOrder plan_XY) ∧
  ExecutionPlan.executionOrder
    (fst (adaptPlan sample_env plan_XY
            (ExecutionFeedback.mk "Z" failed (JsNum.of_Z 10) (lit 5 100)
               (lit 1 2) [] [])))
    = ["X"; "Y"].
Proof.
  assert (ExecutionFeedback.taskId
            (ExecutionFeedback.mk "Z" failed (JsNum.of_Z 10) (lit 5 100)
               (lit 1 2) [] [])
            ∉ ExecutionPlan.executionOrder plan_XY) as Hx.
  { cbn. intros H. repeat (inversion H as [|? ? ? H']; clear H; rename H' into H). }
  split; [exact Hx|].
  exact (proj1 (X13_feedback_on_unknown_task sample_env plan_XY _ Hx)).
Defined.

(** X14.  [adaptPlan] changes nothing but the [executionOrder], the two
    estimates and the [id]: the task plan, the parallel groups, the
    resource allocation, the checkpoints and the fallback strategies of
    the adapted plan are those of the old plan, also where they mention
    a task that was just removed from the order.  Unless the feedback
    is [blocked], the plan passed in is left as it was. *)
Theorem X14_adaptPlan_keeps_the_rest
    (env : Env) (P : ExecutionPlan.t) (fb : ExecutionFeedback.t) :
  ExecutionPlan.taskPlan (fst (adaptPlan env P fb))
    = ExecutionPlan.taskPlan P ∧
  ExecutionPlan.parallelGroups (fst (adaptPlan env P fb))
    = ExecutionPlan.parallelGroups P ∧
  ExecutionPlan.resourceAllocation (fst (adaptPlan env P fb))
    = ExecutionPlan.resourceAllocation P ∧
  ExecutionPlan.checkpoints (fst (adaptPlan env P fb))
    = ExecutionPlan.checkpoints P ∧
  ExecutionPlan.fallbackStrategies (fst (adaptPlan env P fb))
    = ExecutionPlan.fallbackStrategies P ∧
  ExecutionPlan.id (fst (adaptPlan env P fb)) = fst (uuidv4 env) ∧
  uuid_next (snd (adaptPlan env P fb)) = S (uuid_next env) ∧
  (if decide (ExecutionFeedback.status fb = blocked)
   then True else currentPlan_after_adaptPlan P fb = P).
Proof.
  unfold adaptPlan, currentPlan_after_adaptPlan, analyzeFeedbackImpact,
    determineAdaptationStrategy, applyAdaptations, recalculateEstimates.
  destruct (ExecutionFeedback.status fb); cbn; by split_and!.
Qed.

(** The adaptation strategy follows from the feedback status
    alone: [failed] gives a full replan, [blocked] a partial reorder,
    every other status an adjustment of the estimates; the severity that
    the impact analysis reports never changes the choice. *)
Lemma strategy_follows_status
    (P : ExecutionPlan.t) (fb : ExecutionFeedback.t) :
  determineAdaptationStrategy (analyzeFeedbackImpact P fb) fb
  = match ExecutionFeedback.status fb with
    | failed => mkStrategy replan "full"
    | blocked => mkStrategy reorder "partial"
    | completed | in_progress => mkStrategy adjust_estimates "minimal"
    end.
Proof.
  unfold determineAdaptationStrategy, analyzeFeedbackImpact.
  by destruct (ExecutionFeedback.status fb).
Qed.

(** X15.  In a plan that schedules every task once, the tasks the impact
    analysis reports as affected by a task are exactly the tasks
    scheduled after it, in order; the dependency graph is not
    consulted. *)
Theorem X15_affected_tasks_are_the_later_ones
    (P : ExecutionPlan.t) (fb : ExecutionFeedback.t)
    (before after : list string) :
  NoDup (ExecutionPlan.executionOrder P) →
  ExecutionPlan.executionOrder P
    = before ++ ExecutionFeedback.taskId fb :: after →
  affectedTasks (analyzeFeedbackImpact P fb) = after.
Proof.
  intros Hnd Horder. cbn. unfold findAffectedTasks.
  rewrite Horder in Hnd |- *.
  apply NoDup_app in Hnd as (Hb & Hdisj & [Hx Ha]%NoDup_cons).
  assert (ExecutionFeedback.taskId fb ∉ before) as Hxb.
  { intros Hin. apply (Hdisj _ Hin). by left. }
  rewrite indexOf_first by done.
  rewrite List.filter_app. cbn [List.filter].
  rewrite indexOf_first, Z.ltb_irrefl by done.
  rewrite filter_none, filter_all; [done | |].
  - intros y Hy. apply Z.ltb_lt.
    assert (y ∉ before) as Hyb.
    { intros Hin. apply (Hdisj _ Hin). by right. }
    assert (y ≠ ExecutionFeedback.taskId fb) as Hne by (by intros ->).
    pose proof (indexOf_app_r before (ExecutionFeedback.taskId fb :: after) y
                  Hyb ltac:(by right)) as Hge.
    assert (indexOf (before ++ ExecutionFeedback.taskId fb :: after) y
            ≠ Z.of_nat (length before)); [|lia].
    intros Heq. clear Hge. revert Heq. clear -Hyb Hne Hy.
    induction before as [|b before IH]; cbn [indexOf app length].
    + destruct (String.eqb_spec (ExecutionFeedback.taskId fb) y); [done|].
      pose proof (indexOf_present after y Hy).
      destruct (Z.ltb_spec (indexOf after y) 0); lia.
    + apply not_elem_of_cons in Hyb as [Hne' Hyb].
      destruct (String.eqb_spec b y); [done|].
      destruct (Z.ltb_spec
                  (indexOf (before ++ ExecutionFeedback.taskId fb :: after) y)
                  0); [lia|].
      intros Heq. apply (IH Hyb). lia.
  - intros y Hy. apply Z.ltb_ge. rewrite indexOf_app_l by done.
    pose proof (indexOf_bound before y). lia.
Qed.

Lemma X15_witness :
  NoDup (ExecutionPlan.executionOrder plan_XY) ∧
  ExecutionPlan.executionOrder plan_XY
    = [] ++ ExecutionFeedback.taskId (feedback_X failed) :: ["Y"] ∧
  affectedTasks (analyzeFeedbackImpact plan_XY (feedback_X failed)) = ["Y"].
Proof.
  assert (NoDup (ExecutionPlan.executionOrder plan_XY)) as Hnd.
  { cbn. repeat constructor; intros H;
      repeat (inversion H as [|? ? ? H']; clear H; rename H' into H). }
  assert (ExecutionPlan.executionOrder plan_XY
          = [] ++ ExecutionFeedback.taskId (feedback_X failed) :: ["Y"])
    as Horder by reflexivity.
  split; [exact Hnd|]. split; [exact Horder|].
  exact (X15_affected_tasks_are_the_later_ones plan_XY (feedback_X failed)
           [] ["Y"] Hnd Horder).
Defined.

(** ** Estimates at the edges of the arithmetic *)

Lemma is_zero_iff q : JsNum.is_zero q = true ↔ q == 0.
Proof. unfold JsNum.is_zero. apply Qeq_bool_iff. Qed.

Lemma is_zero_Qred q : JsNum.is_zero (Qred q) = JsNum.is_zero q.
Proof.
  apply eq_true_iff_eq. rewrite !is_zero_iff. by rewrite Qred_correct.
Qed.

Lemma div_zero_by (q : Q) (n : nat) :
  JsNum.is_zero q = true →
  JsNum.div (JsNum.Num q) (JsNum.of_nat n) = JsNum.NaN ∨
  ∃ z, JsNum.div (JsNum.Num q) (JsNum.of_nat n) = JsNum.Num z ∧
       JsNum.is_zero z = true.
Proof.
  intros Hq. unfold JsNum.div, JsNum.of_nat, JsNum.of_Z.
  destruct (JsNum.is_zero (inject_Z (Z.of_nat n))) eqn:Hn.
  - left. by rewrite Hq.
  - right. eexists. split; [done|]. rewrite is_zero_Qred.
    apply is_zero_iff. apply is_zero_iff in Hq. rewrite Hq.
    unfold Qdiv. apply Qmult_0_l.
Qed.

Lemma div_by_zero_or_NaN a b :
  (b = JsNum.NaN ∨ ∃ z, b = JsNum.Num z ∧ JsNum.is_zero z = true) →
  JsNum.is_finite (JsNum.div a b) = false.
Proof.
  intros [->|(z & -> & Hz)].
  - by destruct a.
  - destruct a as [p| | |]; cbn; rewrite ?Hz; try done.
    + by destruct (JsNum.is_zero p), (JsNum.is_pos p).
    + by destruct (JsNum.is_neg z).
    + by destruct (JsNum.is_neg z).
Qed.

Lemma mul_zero_nonfinite q f :
  JsNum.is_zero q = true → JsNum.is_finite f = false →
  JsNum.mul (JsNum.Num q) f = JsNum.NaN.
Proof.
  intros Hq Hf. destruct f; try done; cbn; unfold JsNum.signed_inf;
    by rewrite Hq.
Qed.

Lemma mul_nonfinite c f :
  JsNum.is_finite f = false → JsNum.is_finite (JsNum.mul c f) = false.
Proof.
  intros Hf. destruct f; try done; destruct c as [q| | |]; try done; cbn;
    unfold JsNum.signed_inf; destruct (JsNum.is_zero q); try done;
    by destruct (Bool.eqb _ _).
Qed.

Lemma adjustment_of_zero q a n :
  JsNum.is_zero q = true →
  JsNum.is_finite (adjustment (JsNum.Num q) a n) = false.
Proof.
  intros Hq. unfold adjustment. apply div_by_zero_or_NaN.
  by apply div_zero_by.
Qed.

(** X16.  A plan whose [estimatedDuration] is 0 cannot be re-estimated:
    whatever the feedback, the adapted plan's [estimatedDuration] is NaN
    and its [estimatedCost] is NaN or infinite, because the average per
    task is 0 (or 0/0) and the observed duration is divided by it. *)
Theorem X16_zero_estimate_adapts_to_NaN
    (env : Env) (P : ExecutionPlan.t) (fb : ExecutionFeedback.t) (q : Q) :
  ExecutionPlan.estimatedDuration P = JsNum.Num q →
  JsNum.is_zero q = true →
  ExecutionPlan.estimatedDuration (fst (adaptPlan env P fb)) = JsNum.NaN ∧
  JsNum.is_finite (ExecutionPlan.estimatedCost (fst (adaptPlan env P fb)))
    = false.
Proof.
  intros HD Hq. destruct (ExecutionFeedback.status fb) eqn:Hst.
  1, 4: destruct (adaptPlan_adjust_estimates env P fb) as (_ & -> & ->);
    [by rewrite Hst; auto | rewrite HD;
     rewrite (mul_zero_nonfinite q) by (done || by apply adjustment_of_zero);
     by destruct (ExecutionPlan.estimatedCost P),
                 (ExecutionFeedback.actualDuration fb)].
  - rewrite (adaptPlan_failed env P fb Hst). cbn. rewrite HD. split.
    + apply mul_zero_nonfinite; [done | by apply adjustment_of_zero].
    + apply mul_nonfinite. by apply adjustment_of_zero.
  - rewrite (adaptPlan_blocked env P fb Hst). cbn. rewrite HD. split.
    + apply mul_zero_nonfinite; [done | by apply adjustment_of_zero].
    + apply mul_nonfinite. by apply adjustment_of_zero.
Qed.

Lemma X16_witness :
  ExecutionPlan.estimatedDuration
    (with_estimates plan_XY (lit 1 10) (JsNum.of_Z 0)) = JsNum.Num 0 ∧
  JsNum.is_zero 0 = true ∧
  ExecutionPlan.estimatedDuration
    (fst (adaptPlan sample_env
            (with_estimates plan_XY (lit 1 10) (JsNum.of_Z 0))
            (feedback_X completed))) = JsNum.NaN.
Proof.
  assert (ExecutionPlan.estimatedDuration
            (with_estimates plan_XY (lit 1 10) (JsNum.of_Z 0)) = JsNum.Num 0)
    as HD by reflexivity.
  assert (JsNum.is_zero 0 = true) as Hq by reflexivity.
  split; [exact HD|]. split; [exact Hq|].
  exact (proj1 (X16_zero_estimate_adapts_to_NaN sample_env _
                  (feedback_X completed) 0 HD Hq)).
Defined.

(** X17.  When the failed task was the only task of the plan, the
    adapted plan has an empty [executionOrder] and, for finite numbers
    and a non-zero old estimate, an [estimatedDuration] and an
    [estimatedCost] of 0: the average per task is infinite and the
    factor 0. *)
Theorem X17_last_task_failing_zeroes_the_estimates
    (env : Env) (P : ExecutionPlan.t) (fb : ExecutionFeedback.t)
    (d a c : Q) :
  ExecutionFeedback.status fb = failed →
  ExecutionPlan.executionOrder P = [ExecutionFeedback.taskId fb] →
  ExecutionPlan.estimatedDuration P = JsNum.Num d →
  JsNum.is_zero d = false →
  ExecutionFeedback.actualDuration fb = JsNum.Num a →
  ExecutionPlan.estimatedCost P = JsNum.Num c →
  ExecutionPlan.executionOrder (fst (adaptPlan env P fb)) = [] ∧
  JsNum.eqb (ExecutionPlan.estimatedDuration (fst (adaptPlan env P fb)))
            (JsNum.of_Z 0) = true ∧
  JsNum.eqb (ExecutionPlan.estimatedCost (fst (adaptPlan env P fb)))
            (JsNum.of_Z 0) = true.
Proof.
  intros Hst Horder HD Hd Ha HC.
  rewrite (adaptPlan_failed env P fb Hst). cbn.
  rewrite Horder, HD, Ha, HC.
  rewrite filter_cons_False by (intros H; by apply H). cbn.
  unfold adjustment, JsNum.of_nat, JsNum.of_Z.
  cbn [length JsNum.div]. rewrite is_zero_of_nat, Hd.
  rewrite bool_decide_eq_true_2 by done.
  assert (∀ x, Qeq_bool (Qred (x * 0)) (inject_Z 0) = true) as Hzero.
  { intros x. apply Qeq_bool_iff. rewrite Qred_correct.
    apply Qmult_0_r. }
  by destruct (JsNum.is_pos d); cbn; rewrite !Hzero.
Qed.

Lemma X17_witness :
  ExecutionFeedback.status (feedback_X failed) = failed ∧
  ExecutionPlan.executionOrder (with_executionOrder plan_XY ["X"])
    = [ExecutionFeedback.taskId (feedback_X failed)] ∧
  ExecutionPlan.executionOrder
    (fst (adaptPlan sample_env (with_executionOrder plan_XY ["X"])
            (feedback_X failed))) = [] ∧
  JsNum.eqb
    (ExecutionPlan.estimatedDuration
       (fst (adaptPlan sample_env (with_executionOrder plan_XY ["X"])
               (feedback_X failed))))
    (JsNum.of_Z 0) = true.
Proof.
  assert (ExecutionFeedback.status (feedback_X failed) = failed) as Hst
      by reflexivity.
  assert (ExecutionPlan.executionOrder (with_executionOrder plan_XY ["X"])
          = [ExecutionFeedback.taskId (feedback_X failed)]) as Horder
      by reflexivity.
  split; [exact Hst|]. split; [exact Horder|].
  destruct (X17_last_task_failing_zeroes_the_estimates sample_env
              (with_executionOrder plan_XY ["X"]) (feedback_X failed)
              (inject_Z 20) (inject_Z 10) (Qred (1 / 10))
              Hst Horder eq_refl eq_refl eq_refl eq_refl)
    as (Hempty & Hdur & _).
  split; [exact Hempty | exact Hdur].
Defined.

(** ** Reflection on a run *)

Lemma Qle_bool_ratio_l (a : Z) (b : positive) (k n : nat) :
  0 < n →
  Qle_bool (a # b) (Qred (inject_Z (Z.of_nat k) / inject_Z (Z.of_nat n)))
  = bool_decide (a * Z.of_nat n ≤ Z.pos b * Z.of_nat k)%Z.
Proof.
  intros Hn. apply eq_true_iff_eq.
  rewrite Qle_bool_iff, bool_decide_eq_true, Qred_correct.
  unfold Qle, Qdiv, Qmult, Qinv, inject_Z. cbn [Qnum Qden].
  destruct (Z.of_nat n) as [|p|p] eqn:E; try lia. cbn [Qnum Qden].
  rewrite Pos.mul_1_l. lia.
Qed.

Lemma Qle_bool_ratio_r (a : Z) (b : positive) (k n : nat) :
  0 < n →
  Qle_bool (Qred (inject_Z (Z.of_nat k) / inject_Z (Z.of_nat n))) (a # b)
  = bool_decide (Z.pos b * Z.of_nat k ≤ a * Z.of_nat n)%Z.
Proof.
  intros Hn. apply eq_true_iff_eq.
  rewrite Qle_bool_iff, bool_decide_eq_true, Qred_correct.
  unfold Qle, Qdiv, Qmult, Qinv, inject_Z. cbn [Qnum Qden].
  destruct (Z.of_nat n) as [|p|p] eqn:E; try lia. cbn [Qnum Qden].
  rewrite Pos.mul_1_l. lia.
Qed.

Lemma div_of_nat k n :
  0 < n →
  JsNum.div (JsNum.of_nat k) (JsNum.of_nat n)
  = JsNum.Num (Qred (inject_Z (Z.of_nat k) / inject_Z (Z.of_nat n))).
Proof.
  intros Hn. unfold JsNum.div, JsNum.of_nat, JsNum.of_Z.
  rewrite is_zero_of_nat, bool_decide_eq_false_2 by lia. done.
Qed.

Lemma successRate_high (results : ExecutionResults.t) :
  JsNum.gt (successRate results) (lit 8 10)
  = bool_decide (4 * length (ExecutionResults.failedTasks results)
                 < length (ExecutionResults.completedTasks results)).
Proof.
  unfold successRate.
  set (c := length (ExecutionResults.completedTasks results)).
  set (f := length (ExecutionResults.failedTasks results)).
  destruct (decide (c + f = 0)) as [Hz|Hpos].
  - assert (c = 0) as -> by lia. assert (f = 0) as -> by lia. done.
  - rewrite div_of_nat by lia.
    change (lit 8 10) with (JsNum.Num (4 # 5)). cbn [JsNum.gt JsNum.lt].
    rewrite Qle_bool_ratio_r by lia.
    apply eq_true_iff_eq.
    rewrite negb_true_iff, bool_decide_eq_false, bool_decide_eq_true. lia.
Qed.

Lemma successRate_low (results : ExecutionResults.t) :
  JsNum.lt (successRate results) (lit 6 10)
  = bool_decide (2 * length (ExecutionResults.completedTasks results)
                 < 3 * length (ExecutionResults.failedTasks results)).
Proof.
  unfold successRate.
  set (c := length (ExecutionResults.completedTasks results)).
  set (f := length (ExecutionResults.failedTasks results)).
  destruct (decide (c + f = 0)) as [Hz|Hpos].
  - assert (c = 0) as -> by lia. assert (f = 0) as -> by lia. done.
  - rewrite div_of_nat by lia.
    change (lit 6 10) with (JsNum.Num (3 # 5)). cbn [JsNum.lt].
    rewrite Qle_bool_ratio_l by lia.
    apply eq_true_iff_eq.
    rewrite negb_true_iff, bool_decide_eq_false, bool_decide_eq_true. lia.
Qed.

(** X18.  With c completed and f failed tasks, [reflectOnPerformance]
    reports strengths exactly when c > 4f (a success rate above 0.8) and
    weaknesses exactly when 2c < 3f (a rate below 0.6); it never reports
    both, and it recommends a further breakdown of the tasks exactly
    when it reports weaknesses. *)
Theorem X18_strengths_and_weaknesses_by_counts
    (results : ExecutionResults.t) :
  let c := length (ExecutionResults.completedTasks results) in
  let f := length (ExecutionResults.failedTasks results) in
  let insights := reflectOnPerformance results in
  (PerformanceInsights.strengths insights ≠ [] ↔ 4 * f < c) ∧
  (PerformanceInsights.weaknesses insights ≠ [] ↔ 2 * c < 3 * f) ∧
  ¬ (PerformanceInsights.strengths insights ≠ [] ∧
     PerformanceInsights.weaknesses insights ≠ []) ∧
  ("Review task complexity and break down further"
     ∈ PerformanceInsights.recommendations insights ↔ 2 * c < 3 * f).
Proof.
  intros c f insights. subst insights. unfold reflectOnPerformance.
  cbn [PerformanceInsights.strengths PerformanceInsights.weaknesses
       PerformanceInsights.recommendations].
  unfold generateRecommendations, analyzePerformance.
  cbn [weaknesses strengths].
  rewrite successRate_high, successRate_low. fold c f.
  assert (∀ rest : list string,
            "Review task complexity and break down further"
              ∈ "Review task complexity and break down further" :: rest)
    as Hhere by (intros; left).
  assert (∀ b : bool,
            "Review task complexity and break down further"
              ∉ (if b then ["Adjust duration estimates and add buffer time"]
                 else [])) as Hnot.
  { intros [] H;
      repeat (inversion H as [|? ? ? H']; clear H; rename H' into H). }
  destruct (decide (4 * f < c)) as [Hs|Hs];
    destruct (decide (2 * c < 3 * f)) as [Hw|Hw]; [lia| | |].
  - rewrite (bool_decide_eq_true_2 _ Hs), (bool_decide_eq_false_2 _ Hw).
    change (includes [] "Low success rate") with false. cbn [app].
    split_and!.
    + split; [by intros _ | done].
    + split; [done | lia].
    + by intros [_ ?].
    + split; [by intros ?%Hnot | lia].
  - rewrite (bool_decide_eq_false_2 _ Hs), (bool_decide_eq_true_2 _ Hw).
    change (includes ["Low success rate"; "Task execution issues"]
                     "Low success rate") with true. cbn [app].
    split_and!.
    + split; [done | lia].
    + split; [by intros _ | done].
    + by intros [? _].
    + split; [by intros _ | intros _; apply Hhere].
  - rewrite (bool_decide_eq_false_2 _ Hs), (bool_decide_eq_false_2 _ Hw).
    change (includes [] "Low success rate") with false. cbn [app].
    split_and!.
    + split; [done | lia].
    + split; [done | lia].
    + by intros [? _].
    + split; [by intros ?%Hnot | lia].
Qed.

(** X19.  [reflectOnPerformance] detects at most two patterns, so the
    deduction for more than two patterns never applies and the clamping
    never changes the score: the confidence is 0.8 + 0.1 when strengths
    are reported (c > 4f for c completed and f failed tasks) and
    0.8 - 0.1 otherwise. *)
Theorem X19_confidence_takes_two_values
    (results : ExecutionResults.t) :
  (length (identifyPerformancePatterns results) ≤ 2)%nat ∧
  PerformanceInsights.confidenceScore (reflectOnPerformance results)
  = if bool_decide (4 * length (ExecutionResults.failedTasks results)
                    < length (ExecutionResults.completedTasks results))
    then JsNum.add (lit 8 10) (lit 1 10)
    else JsNum.sub (lit 8 10) (lit 1 10).
Proof.
  assert (length (identifyPerformancePatterns results) ≤ 2)%nat as Hlen.
  { unfold identifyPerformancePatterns. rewrite length_app.
    destruct (JsNum.gt _ _); case_bool_decide; cbn; lia. }
  split; [done|].
  unfold reflectOnPerformance.
  cbn [PerformanceInsights.confidenceScore].
  unfold calculateConfidenceScore.
  rewrite (bool_decide_eq_false_2 (2 < _)) by lia.
  unfold analyzePerformance. cbn [weaknesses strengths].
  rewrite successRate_high, successRate_low.
  set (c := length (ExecutionResults.completedTasks results)).
  set (f := length (ExecutionResults.failedTasks results)).
  destruct (decide (4 * f < c)) as [Hs|Hs];
    destruct (decide (2 * c < 3 * f)) as [Hw|Hw]; [lia| | |].
  - by rewrite (bool_decide_eq_true_2 _ Hs), (bool_decide_eq_false_2 _ Hw).
  - by rewrite (bool_decide_eq_false_2 _ Hs), (bool_decide_eq_true_2 _ Hw).
  - by rewrite (bool_decide_eq_false_2 _ Hs), (bool_decide_eq_false_2 _ Hw).
Qed.

(** ** Planning statistics and the plan history *)

Lemma validateDecomposition_returns parse_result :
  validateDecomposition parse_result ≠ OutOfFuel.
Proof.
  unfold validateDecomposition.
  destruct parse_result as [p|]; [|done].
  destruct p as [| | | |?|fields]; simpl; try done.
  destruct (_ || _); [done|].
  destruct (_ || _); [done|].
  destruct (field fields "subGoals") as [[| |?|s|subGoals|?]|]; simpl;
    try done.
  - pose proof (validateSubGoals_returns (chars s)).
    by destruct (validateSubGoals (chars s)).
  - pose proof (validateSubGoals_returns subGoals).
    by destruct (validateSubGoals subGoals).
Qed.

Lemma validateDecomposition_Ok_inv parse_result decomposition :
  validateDecomposition parse_result = Ok decomposition →
  parse_result = Some decomposition ∧
  ∃ fields subGoals duration,
    decomposition = JObj fields ∧
    field fields "subGoals" = Some (JArr subGoals) ∧
    field fields "estimatedDuration" = Some (JNum duration) ∧
    JsNum.truthy duration = true ∧
    Forall accepted_subGoal subGoals.
Proof.
  unfold validateDecomposition.
  destruct parse_result as [p|]; [|done].
  destruct p as [| | | |?|fields]; simpl; try done.
  destruct (field fields "subGoals") as [[| |?|?|subGoals|?]|] eqn:Esg;
    simpl; try done; try by destruct (negb _).
  destruct (field fields "estimatedDuration")
    as [[| |duration|?|?|?]|] eqn:Edur; simpl; try done;
    try by destruct (negb _).
  destruct (JsNum.truthy duration) eqn:Etr; simpl; [|done].
  destruct (validateSubGoals subGoals) as [[]| |] eqn:Eall; simpl;
    [|done|done].
  intros [= <-]. split; [done|].
  exists fields, subGoals, duration.
  by rewrite <- validateSubGoals_Ok.
Qed.

(** X20.  A successful [decomposeGoal] stores a plan of version 1 for
    the given goal, whose id is the uuid drawn and whose subgoals are
    those of the validated reply; it appends the plan to the history of
    the context's agent (of 'default' when the context has no agent id
    or an empty one), so that agent's [totalPlans] grows by one, and it
    changes no other agent's statistics. *)
Theorem X20_decomposeGoal_records_the_plan
    (engine : Engine) (env : Env) (goal : string)
    (context : AgentContext.t) (parse_result : option json)
    (decomposition : json) :
  validateDecomposition parse_result = Ok decomposition →
  ∃ taskPlan engine' env',
    decomposeGoal engine env goal context (RouterContent parse_result)
      = (Decomposed taskPlan, engine', env') ∧
    StoredPlan.version taskPlan = 1 ∧
    StoredPlan.mainGoal taskPlan = goal ∧
    StoredPlan.goalId taskPlan = fst (uuidv4 env) ∧
    payload_field decomposition "subGoals"
      = Some (JArr (StoredPlan.subGoals taskPlan)) ∧
    payload_field decomposition "estimatedDuration"
      = Some (JNum (StoredPlan.estimatedDuration taskPlan)) ∧
    planningHistory engine' !! history_key context
      = Some (default [] (planningHistory engine !! history_key context)
              ++ [taskPlan]) ∧
    totalPlans (getPlanningStats engine' (history_key context))
      = S (totalPlans (getPlanningStats engine (history_key context))) ∧
    (∀ agentId, agentId ≠ history_key context →
       getPlanningStats engine' agentId = getPlanningStats engine agentId).
Proof.
  intros Hok. unfold decomposeGoal. rewrite Hok.
  apply validateDecomposition_Ok_inv in Hok
    as (_ & fields & subGoals & duration & -> & Hsg & Hdur & _ & _).
  cbn [uuidv4 payload_field]. rewrite Hsg, Hdur. cbn [array_items number_value].
  eexists _, _, _. split; [reflexivity|]. cbn.
  split_and!; try done.
  - by rewrite lookup_insert_eq.
  - unfold getPlanningStats. cbn. rewrite lookup_insert_eq. cbn.
    rewrite length_app. cbn. lia.
  - intros agentId Hne. unfold getPlanningStats. cbn.
    by rewrite lookup_insert_ne.
Qed.

Lemma X20_witness :
  validateDecomposition (Some payload_valid) = Ok payload_valid ∧
  ∃ taskPlan engine' env',
    decomposeGoal new_engine sample_env "ship it"
      (AgentContext.mk None None None None)
      (RouterContent (Some payload_valid))
      = (Decomposed taskPlan, engine', env') ∧
    totalPlans (getPlanningStats engine' "default") = 1.
Proof.
  assert (validateDecomposition (Some payload_valid) = Ok payload_valid)
    as Hok by reflexivity.
  split; [exact Hok|].
  destruct (X20_decomposeGoal_records_the_plan new_engine sample_env
              "ship it" (AgentContext.mk None None None None)
              (Some payload_valid) payload_valid Hok)
    as (taskPlan & engine' & env' & Hrun & _ & _ & _ & _ & _ & _ & Htotal & _).
  exists taskPlan, engine', env'. split; [exact Hrun | exact Htotal].
Defined.

(** X21.  A [decomposeGoal] that does not succeed, because the model
    router fails or the reply is rejected by the validator, leaves both
    histories and the uuid source as they were; and every call either
    succeeds or fails with a cause. *)
Theorem X21_failed_decomposeGoal_changes_nothing
    (engine : Engine) (env : Env) (goal : string)
    (context : AgentContext.t) (reply : RouterReply) :
  match fst (fst (decomposeGoal engine env goal context reply)) with
  | Decomposed _ => True
  | DecomposeFailed cause =>
      snd (fst (decomposeGoal engine env goal context reply)) = engine ∧
      snd (decomposeGoal engine env goal context reply) = env ∧
      match reply with
      | RouterFailed message => cause = RouterError message
      | RouterContent parse_result =>
          ∃ reason, cause = ValidationError (InvalidPlanFormat reason)
      end
  | DecomposeOutOfFuel => False
  end.
Proof.
  unfold decomposeGoal. destruct reply as [message|parse_result]; [done|].
  pose proof (validateDecomposition_returns parse_result) as Hret.
  destruct (validateDecomposition parse_result) as [d|e|] eqn:E; cbn;
    [done | | done].
  split_and!; [done | done |].
  unfold validateDecomposition, rethrow in E.
  destruct (match parse_result with Some _ => _ | None => _ end)
    as [?|e'|]; [done| |done].
  injection E as <-. by exists e'.
Qed.

Lemma reachable_executionHistory engine :
  reachable engine → executionHistory engine = ∅.
Proof.
  induction 1 as [|engine env goal context reply _ IH]; [done|].
  unfold decomposeGoal. destruct reply as [message|parse_result]; [done|].
  by destruct (validateDecomposition parse_result).
Qed.

(** X22.  No method of the engine writes to the execution history: in
    every state reachable from a fresh engine through [decomposeGoal],
    [getPlanningStats] reports no executions for any agent, and its
    success rate, average execution time and average quality score are
    0. *)
Theorem X22_execution_statistics_stay_zero
    (engine : Engine) (agentId : string) :
  reachable engine →
  totalExecutions (getPlanningStats engine agentId) = 0 ∧
  stats_successRate (getPlanningStats engine agentId) = JsNum.of_Z 0 ∧
  averageExecutionTime (getPlanningStats engine agentId) = JsNum.of_Z 0 ∧
  averageQualityScore (getPlanningStats engine agentId) = JsNum.of_Z 0.
Proof.
  intros Hreach%reachable_executionHistory.
  unfold getPlanningStats. rewrite Hreach, lookup_empty. by cbn.
Qed.

Lemma X22_witness :
  reachable
    (snd (fst (decomposeGoal new_engine sample_env "ship it"
                 (AgentContext.mk None None None None)
                 (RouterContent (Some payload_valid))))) ∧
  totalExecutions
    (getPlanningStats
       (snd (fst (decomposeGoal new_engine sample_env "ship it"
                    (AgentContext.mk None None None None)
                    (RouterContent (Some payload_valid))))) "default") = 0.
Proof.
  assert (reachable
            (snd (fst (decomposeGoal new_engine sample_env "ship it"
                         (AgentContext.mk None None None None)
                         (RouterContent (Some payload_valid)))))) as Hreach
      by (apply reachable_decomposeGoal, reachable_new).
  split; [exact Hreach|].
  exact (proj1 (X22_execution_statistics_stay_zero _ "default" Hreach)).
Defined.

(** X23.  The divisions of [getPlanningStats] are guarded: for every
    engine state and agent, known or not, the success rate is a finite
    number between 0 and 1, and an agent without recorded plans and
    executions gets 0 in every figure. *)
Theorem X23_planning_statistics_are_guarded
    (engine : Engine) (agentId : string) :
  JsNum.is_finite (stats_successRate (getPlanningStats engine agentId))
    = true ∧
  JsNum.lt (stats_successRate (getPlanningStats engine agentId))
           (JsNum.of_Z 0) = false ∧
  JsNum.lt (JsNum.of_Z 1)
           (stats_successRate (getPlanningStats engine agentId)) = false ∧
  (if decide (planningHistory engine !! agentId = None ∧
              executionHistory engine !! agentId = None)
   then getPlanningStats engine agentId
        = mkStats 0 0 (JsNum.of_Z 0) (JsNum.of_Z 0) (JsNum.of_Z 0)
            (JsNum.of_Z 0)
   else True).
Proof.
  split_and!.
  1-3: unfold getPlanningStats; cbn [stats_successRate];
    set (executions := default [] (executionHistory engine !! agentId));
    case_bool_decide as Hn; [|done];
    rewrite div_of_nat by done;
    pose proof (length_filter
                  (fun e => ExecutionResults.overallStatus e = run_completed)
                  executions) as Hle.
  - done.
  - change (JsNum.of_Z 0) with (JsNum.Num (0 # 1)). cbn [JsNum.lt].
    rewrite Qle_bool_ratio_l by done.
    rewrite bool_decide_eq_true_2 by lia. done.
  - change (JsNum.of_Z 1) with (JsNum.Num (1 # 1)). cbn [JsNum.lt].
    rewrite Qle_bool_ratio_r by done.
    rewrite bool_decide_eq_true_2 by lia. done.
  - case_decide as H; [|done]. destruct H as [Hp He].
    unfold getPlanningStats. by rewrite Hp, He.
Qed.
